(** * Portfolio growth calculator: solver and projection table

    A shallow embedding of [calculate_years_to_target] and
    [build_projection_table] of [streamlit_app.py].

    Python's [float] is IEEE 754 binary64, which is what Rocq's primitive
    floats are, so the solver is embedded on [float] as it runs: [+], [-],
    [*] never raise, [/] raises [ZeroDivisionError] on a zero divisor,
    [math.log] raises [ValueError] on a non-positive argument, and
    [round(x, 2)] goes through the nearest decimal with two fractional
    digits.

    The table builder only adds, multiplies, divides by 12 and rounds.  Its
    text is written once over an arithmetic interface and read twice: in
    binary64, as Python runs it, and in exact rational arithmetic, the
    arithmetic in which the derivations of the design notes are carried
    out.

    Of [main] the parts that compute are embedded in the module [App]: the
    table of rates, the import of defaults from an uploaded sheet, the
    preselected portfolio type, the "Calculate" block up to the projection
    table, and the summary row of the export. *)

From Stdlib Require Import ZArith QArith Qround Qabs Floats List Bool Lia Lqa.
From Stdlib Require Import Qpower.
From Stdlib Require String.
Import ListNotations.

(** ** Outcomes of a Python expression *)

Inductive exn : Set :=
| ZeroDivisionError
| ValueError
| OverflowError.

Inductive result (A : Type) : Type :=
| Ret (a : A)
| Raise (e : exn).

Arguments Ret {A} a.
Arguments Raise {A} e.

Definition bind {A B : Type} (c : result A) (k : A -> result B) : result B :=
  match c with
  | Ret a => k a
  | Raise e => Raise e
  end.

Notation "x <- c ;; k" := (bind c (fun x => k))
  (at level 61, c at next level, right associativity).

(** ** Rounding a rational to an integer, ties to even *)

Definition round_half_even (q : Q) : Z :=
  let f := Qfloor q in
  match Qcompare (q - inject_Z f) (1 # 2) with
  | Lt => f
  | Gt => (f + 1)%Z
  | Eq => if Z.even f then f else (f + 1)%Z
  end.

(** ** binary64 *)

Module B64.

(** The rational a finite binary64 number stands for: [(-1)^s * m * 2^e]. *)
Definition value_SF (x : spec_float) : Q :=
  match x with
  | S754_finite s m e =>
      let a := if s then Z.neg m else Z.pos m in
      match e with
      | Z0 => inject_Z a
      | Zpos k => inject_Z (a * 2 ^ Zpos k)
      | Zneg k => a # (2 ^ k)
      end
  | _ => 0
  end.

Definition value (x : float) : Q := value_SF (Prim2SF x).

(** Neither an infinity nor a NaN. *)
Definition finite (x : float) : bool :=
  match Prim2SF x with
  | S754_zero _ | S754_finite _ _ _ => true
  | _ => false
  end.

(** The binary64 number nearest to the rational [q], ties to even.  The
    quotient is cut after more than 64 significant bits and a sticky bit
    records whether anything was cut, so that the final rounding to 53 bits
    sees on which side of a midpoint [q] lies. *)
Definition nearest (q : Q) : float :=
  let p := Qnum q in
  let d := Zpos (Qden q) in
  let s := (1146 + Z.log2 d)%Z in
  let a := (Z.abs p * 2 ^ s)%Z in
  let m := (a / d)%Z in
  let sticky := if (a mod d =? 0)%Z then 0%Z else 1%Z in
  SF2Prim (binary_normalize prec emax (Z.sgn p * (2 * m + sticky)) (- (s + 1)) false).

(** [round(x, 2)] on a float: infinities and NaN round to themselves; a
    finite [x] is turned into the decimal with two fractional digits nearest
    to its exact value (ties to even) and that decimal is read back as the
    nearest binary64 number.  A result of zero keeps the sign of [x]. *)
Definition round2 (x : float) : float :=
  if finite x then
    let n := round_half_even (value x * 100) in
    if (n =? 0)%Z then (x * 0)%float else nearest (n # 100)
  else x.

(** [math.ceil(x)]: the integer ceiling of a finite float; [ValueError] on
    NaN and [OverflowError] on an infinity. *)
Definition ceil (x : float) : result Z :=
  match Prim2SF x with
  | S754_nan => Raise ValueError
  | S754_infinity _ => Raise OverflowError
  | sf => Ret (Qceiling (value_SF sf))
  end.

(** The natural logarithm on binary64.  CPython hands [math.log] to the C
    library, whose result is within one unit in the last place of the true
    logarithm; the model takes the logarithm rounded to nearest.  It is
    computed in fixed point with 256 fractional bits from
    [ln (f * 2^k) = k * ln 2 + 2 * atanh ((f - 1) / (f + 1))], [1 <= f < 2]. *)
Definition log_bits : Z := 256.

Fixpoint atanh_series (n : nat) (j t z2 acc : Z) : Z :=
  match n with
  | O => acc
  | S n' => atanh_series n' (j + 2) (Z.shiftr (t * z2) log_bits) z2 (acc + t / j)
  end%Z.

Definition atanh_fix (z : Z) : Z :=
  atanh_series 90 1 z (Z.shiftr (z * z) log_bits) 0.

Definition ln2_fix : Z := (2 * atanh_fix (2 ^ log_bits / 3))%Z.

Definition ln_fix (m : positive) (e : Z) : Z :=
  let nb := Z.log2 (Zpos m) in
  let h := (2 ^ nb)%Z in
  let z := (((Zpos m - h) * 2 ^ log_bits) / (Zpos m + h))%Z in
  ((e + nb) * ln2_fix + 2 * atanh_fix z)%Z.

Definition libm_log (x : float) : float :=
  match Prim2SF x with
  | S754_finite false m e => nearest (ln_fix m e # 2 ^ 256)
  | _ => x
  end.

End B64.

(** ** Python's float operators that can raise *)

Section PythonFloat.
Local Open Scope float_scope.

(** [x / y] *)
Definition truediv (x y : float) : result float :=
  if y =? 0 then Raise ZeroDivisionError else Ret (x / y).

(** [math.log(x)]: a domain error unless [x > 0]; NaN and [+inf] pass
    through. *)
Definition math_log (x : float) : result float :=
  if x <=? 0 then Raise ValueError else Ret (B64.libm_log x).

(** ** The solver *)

(** [calculate_years_to_target(current_value, target_value, annual_rate,
    monthly_contribution)].  [float("inf")] is [infinity].  The arguments
    are floats, as the number inputs of the application give them; the int
    literals [12], [1] and [0] of the body are converted by the operators
    they meet. *)
Definition calculate_years_to_target
    (current_value target_value annual_rate monthly_contribution : float)
    : result float :=
  if target_value <=? current_value then Ret 0
  else if annual_rate <=? 0 then
    if monthly_contribution <=? 0 then Ret infinity
    else
      let remaining := target_value - current_value in
      months <- truediv remaining monthly_contribution ;;
      Ret (B64.round2 (months / 12))
  else
    let r := annual_rate / 12 in
    let pmt := monthly_contribution in
    if pmt =? 0 then
      if current_value <=? 0 then Ret infinity
      else
        q <- truediv target_value current_value ;;
        l1 <- math_log q ;;
        l2 <- math_log (1 + r) ;;
        months <- truediv l1 l2 ;;
        Ret (B64.round2 (months / 12))
    else
      a <- truediv pmt r ;;
      let numerator := target_value + a in
      b <- truediv pmt r ;;
      let denominator := current_value + b in
      if denominator <=? 0 then Ret infinity
      else
        ratio <- truediv numerator denominator ;;
        if ratio <=? 0 then Ret infinity
        else
          l1 <- math_log ratio ;;
          l2 <- math_log (1 + r) ;;
          months <- truediv l1 l2 ;;
          Ret (B64.round2 (months / 12)).

End PythonFloat.

(** ** The arithmetic of the table builder *)

Class Arith (T : Type) : Type := {
  zero : T;                (* the int literal 0, as a float *)
  twelve : T;              (* the int literal 12, as a float *)
  add : T -> T -> T;
  sub : T -> T -> T;
  mul : T -> T -> T;
  div : T -> T -> T;       (* [/] by a divisor that is not zero *)
  round2 : T -> T;         (* [round(x, 2)] *)
  is_inf : T -> bool;      (* [x == float("inf")] *)
  ceil : T -> result Z     (* [math.ceil(x)] *)
}.

(** binary64, as Python runs the program. *)
#[export] Instance binary64 : Arith float := {
  zero := 0%float;
  twelve := 12%float;
  add := PrimFloat.add;
  sub := PrimFloat.sub;
  mul := PrimFloat.mul;
  div := PrimFloat.div;
  round2 := B64.round2;
  is_inf := fun x => PrimFloat.eqb x infinity;
  ceil := B64.ceil
}.

(** Exact rational arithmetic: no rounding of sums and products, no
    overflow, no infinity.  Results are kept in lowest terms. *)
Module Exact.

Definition qadd (x y : Q) : Q := Qred (x + y).
Definition qsub (x y : Q) : Q := Qred (x - y).
Definition qmul (x y : Q) : Q := Qred (x * y).
Definition qdiv (x y : Q) : Q := Qred (x / y).
Definition qround2 (x : Q) : Q := round_half_even (x * 100) # 100.

End Exact.

#[export] Instance exact : Arith Q := {
  zero := 0%Q;
  twelve := 12%Q;
  add := Exact.qadd;
  sub := Exact.qsub;
  mul := Exact.qmul;
  div := Exact.qdiv;
  round2 := Exact.qround2;
  is_inf := fun _ => false;
  ceil := fun x => Ret (Qceiling x)
}.

(** ** The table builder *)

(** One row of the table: the dict appended to [rows]. *)
Record Row (T : Type) : Type := mkRow {
  Year : Z;
  Starting_Balance : T;
  Contributions : T;
  Growth : T;
  Ending_Balance : T
}.

Arguments mkRow {T}.
Arguments Year {T}.
Arguments Starting_Balance {T}.
Arguments Contributions {T}.
Arguments Growth {T}.
Arguments Ending_Balance {T}.

(** The three variables the inner loop updates. *)
Record Running (T : Type) : Type := mkRunning {
  balance : T;
  growth_this_year : T;
  contributions_this_year : T
}.

Arguments mkRunning {T}.
Arguments balance {T}.
Arguments growth_this_year {T}.
Arguments contributions_this_year {T}.

Section Builder.
Context {T : Type} `{Arith T}.

(** The body of [for _ in range(12)]. *)
Definition month (monthly_rate monthly_contribution : T) (s : Running T) : Running T :=
  let interest := mul (balance s) monthly_rate in
  {| growth_this_year := add (growth_this_year s) interest;
     balance := add (balance s) (add interest monthly_contribution);
     contributions_this_year := add (contributions_this_year s) monthly_contribution |}.

(** The inner loop, entered with the counters of the year reset to 0. *)
Definition simulate_year (monthly_rate monthly_contribution bal : T) : Running T :=
  Nat.iter 12 (month monthly_rate monthly_contribution) (mkRunning bal zero zero).

(** The dict built after the inner loop. *)
Definition make_row (year : Z) (s : Running T) : Row T :=
  {| Year := year;
     Starting_Balance :=
       round2 (sub (sub (balance s) (growth_this_year s)) (contributions_this_year s));
     Contributions := round2 (contributions_this_year s);
     Growth := round2 (growth_this_year s);
     Ending_Balance := round2 (balance s) |}.

(** [for year in range(1, total_years + 1)], with [n] years still to go. *)
Fixpoint year_loop (monthly_rate monthly_contribution : T)
    (n : nat) (year : Z) (bal : T) : list (Row T) :=
  match n with
  | O => []
  | S n' =>
      let s := simulate_year monthly_rate monthly_contribution bal in
      make_row year s
        :: year_loop monthly_rate monthly_contribution n' (year + 1) (balance s)
  end.

(** [build_projection_table(current_value, annual_rate, monthly_contribution,
    years)]; the data frame is the list of its rows. *)
Definition build_projection_table
    (current_value annual_rate monthly_contribution years : T)
    : result (list (Row T)) :=
  let monthly_rate := div annual_rate twelve in
  total_years <- (if negb (is_inf years) then ceil years else Ret 30%Z) ;;
  Ret (year_loop monthly_rate monthly_contribution (Z.to_nat total_years) 1 current_value).

(** The running balance with which year [k + 1] starts (the input for
    [k = 0]). *)
Fixpoint carried_balance (monthly_rate monthly_contribution current_value : T)
    (k : nat) : T :=
  match k with
  | O => current_value
  | S k' =>
      balance (simulate_year monthly_rate monthly_contribution
                 (carried_balance monthly_rate monthly_contribution current_value k'))
  end.




End Builder.

(** ** What the properties of the table are stated with *)

(** How far [starting + contributions + growth] is from [ending] in a row
    of exact numbers. *)
Definition row_gap (w : Row Q) : Q :=
  Qabs (Starting_Balance w + Contributions w + Growth w - Ending_Balance w).

(** The same distance for a row of binary64 numbers, measured on the exact
    values the four floats stand for. *)
Definition row_gap64 (w : Row float) : Q :=
  Qabs (B64.value (Starting_Balance w) + B64.value (Contributions w)
        + B64.value (Growth w) - B64.value (Ending_Balance w)).

(** What the inner loop keeps true: the balance is the balance the year
    started with, plus the growth and the contributions counted so far. *)
Definition year_inv (b : Q) (s : Running Q) : Prop :=
  balance s == b + growth_this_year s + contributions_this_year s.



(** ** What further properties of the solver and the table are stated with *)

Section BuilderColumns.
Context {T : Type} `{Arith T}.

(** What the inner loop does to [contributions_this_year] alone: it starts
    from 0 and adds the monthly contribution twelve times. *)
Definition contributions_of_year (monthly_contribution : T) : T :=
  Nat.iter 12 (fun c => add c monthly_contribution) zero.

End BuilderColumns.

(** The formula in the docstring of the solver:
    [FV = PV * (1+r)^n + PMT * ((1+r)^n - 1) / r]. *)
Definition future_value (pv r pmt : Q) (n : nat) : Q :=
  pv * (1 + r) ^ Z.of_nat n + pmt * ((1 + r) ^ Z.of_nat n - 1) / r.

(** A binary64 number that is a zero with a plus sign, positive, [+inf] or
    NaN. *)
Definition plus_signed (x : spec_float) : bool :=
  match x with
  | S754_zero false | S754_finite false _ _ | S754_infinity false | S754_nan => true
  | _ => false
  end.

(** ** The application *)

Set Warnings "-inexact-float".

(** The parts of [main] that compute: the table of rates, the defaults read
    from an uploaded sheet, the preselected portfolio type, what the
    "Calculate" button does with the solver and the builder, and the summary
    row of the export.  Widgets and messages are left out; a dict or a row
    with string keys is the list of its items. *)
Module App.
Import String.
Local Open Scope string_scope.

(** [PORTFOLIO_RATES]; a dict keeps its keys in the order of insertion. *)
Definition PORTFOLIO_RATES : list (string * float) :=
  [ ("Conservative (60/40)", 0.06%float);
    ("Diversified Global", 0.08%float);
    ("International Diversified", 0.07%float);
    ("Real Estate", 0.09%float);
    ("Aggressive Growth", 0.10%float) ].

(** [d[key]] on a dict or on a row of a data frame; [None] stands for a
    key that is not there ([key in d] is false). *)
Fixpoint getitem {V : Type} (d : list (string * V)) (key : string) : option V :=
  match d with
  | [] => None
  | (k, v) :: d' => if k =? key then Some v else getitem d' key
  end.

(** [d.get(key, default)], on the entry found under the key. *)
Definition get {V : Type} (entry : option V) (default : V) : V :=
  match entry with
  | Some v => v
  | None => default
  end.

(** [l.index(x)]: the first position of [x]; [ValueError] when [x] is not
    in the list. *)
Fixpoint list_index (l : list string) (x : string) : result nat :=
  match l with
  | [] => Raise ValueError
  | y :: l' => if y =? x then Ret O else i <- list_index l' x ;; Ret (S i)
  end.

(** [portfolio_types = list(PORTFOLIO_RATES.keys())] *)
Definition portfolio_types : list string := map fst PORTFOLIO_RATES.

(** [imported_defaults]: a dict with at most the four keys that the import
    writes; an absent key is [None]. *)
Record Defaults : Type := mkDefaults {
  current : option float;
  target : option float;
  monthly : option float;
  portfolio_type : option string
}.

(** [imported_defaults = {}] *)
Definition no_defaults : Defaults := mkDefaults None None None None.

(** A cell of the uploaded sheet: a number, with the float that [float]
    makes of it, or a text. *)
Inductive cell : Type :=
| Number (x : float)
| Text (s : string).

(** A row of a data frame ([df.iloc[0]]): the cells under their column
    names.  A data frame is the list of its rows. *)
Definition Series : Type := list (string * cell).
Definition DataFrame : Type := list Series.

(** [df.empty]: no rows, or no columns. *)
Definition empty (df : DataFrame) : bool :=
  match df with
  | [] => true
  | [] :: _ => true
  | _ => false
  end.

Section ImportBlock.

(** [float(s)] on a string, [None] when it raises, and [str(x)] on a float:
    the import is read for whatever they are. *)
Variable float_of_str : string -> option float.
Variable str_of_float : float -> string.

(** [float(v)] *)
Definition to_float (v : cell) : option float :=
  match v with
  | Number x => Some x
  | Text s => float_of_str s
  end.

(** [str(v)] *)
Definition to_str (v : cell) : string :=
  match v with
  | Number x => str_of_float x
  | Text s => s
  end.

(** For the statements about the import: [float] does not raise on the cell
    under a column (also when the column is not there), and the number it
    gives when there is one. *)
Definition converts (x : option cell) : bool :=
  match x with
  | Some v => match to_float v with Some _ => true | None => false end
  | None => true
  end.

Definition converted (x : option cell) : option float :=
  match x with
  | Some v => to_float v
  | None => None
  end.

(** [if key in row: imported_defaults[...] = float(row[key])]; [None] when
    the conversion raises, and then nothing has been stored. *)
Definition import_float (row : Series) (key : string)
    (store : Defaults -> float -> Defaults) (d : Defaults) : option Defaults :=
  match getitem row key with
  | None => Some d
  | Some v => option_map (store d) (to_float v)
  end.

(** [if key in row: imported_defaults[...] = str(row[key])] *)
Definition import_str (row : Series) (key : string)
    (store : Defaults -> string -> Defaults) (d : Defaults) : option Defaults :=
  match getitem row key with
  | None => Some d
  | Some v => Some (store d (to_str v))
  end.

(** The statements of a [try] block, run in order on the dict.  The first
    one that raises ends the block; the dict keeps what was stored before,
    and the flag tells that the [except] branch has run. *)
Fixpoint try_block (steps : list (Defaults -> option Defaults)) (d : Defaults)
    : Defaults * bool :=
  match steps with
  | [] => (d, false)
  | step :: rest =>
      match step d with
      | Some d' => try_block rest d'
      | None => (d, true)
      end
  end.

(** The import block of [main], from [if not df_import.empty] on: the dict
    it leaves and whether the error message is shown. *)
Definition import_defaults (df_import : DataFrame) : Defaults * bool :=
  if negb (empty df_import) then
    match df_import with
    | row :: _ =>
        try_block
          [ import_float row "Current Value"
              (fun d x => mkDefaults (Some x) (target d) (monthly d) (portfolio_type d));
            import_float row "Target Value"
              (fun d x => mkDefaults (current d) (Some x) (monthly d) (portfolio_type d));
            import_float row "Monthly Contribution"
              (fun d x => mkDefaults (current d) (target d) (Some x) (portfolio_type d));
            import_str row "Portfolio Type"
              (fun d s => mkDefaults (current d) (target d) (monthly d) (Some s)) ]
          no_defaults
    | [] => (no_defaults, false)
    end
  else (no_defaults, false).

End ImportBlock.

(** [default_index]: the position of the imported portfolio type, 0 when
    there is none or when [index] raises [ValueError]. *)
Definition default_index (imported_defaults : Defaults) : result nat :=
  match portfolio_type imported_defaults with
  | Some x =>
      match list_index portfolio_types x with
      | Raise ValueError => Ret O
      | r => r
      end
  | None => Ret O
  end.

(** The values handed to the four input widgets as [value=] and [index=]:
    what the form shows before the user changes anything. *)
Record Inputs : Type := mkInputs {
  current_value : float;
  target_value : float;
  monthly_contribution : float;
  selected_portfolio : option string
}.

Definition initial_inputs (imported_defaults : Defaults) : result Inputs :=
  i <- default_index imported_defaults ;;
  Ret {| current_value := get (current imported_defaults) 10000%float;
         target_value := get (target imported_defaults) 1000000%float;
         monthly_contribution := get (monthly imported_defaults) 500%float;
         selected_portfolio := nth_error portfolio_types i |}.

(** What pressing "Calculate" leads to: one of the two messages, or the
    years and the projection table that the rest of the page shows. *)
Inductive Outcome : Type :=
| Already_reached
| Unreachable
| Projection (years : float) (df_projection : list (Row float)).

(** The body of [if st.button("Calculate")] up to the projection table,
    with [annual_rate = PORTFOLIO_RATES[selected_portfolio]]. *)
Definition on_calculate
    (current_value target_value monthly_contribution annual_rate : float)
    : result Outcome :=
  if (target_value <=? current_value)%float then Ret Already_reached
  else
    years <- calculate_years_to_target current_value target_value annual_rate
               monthly_contribution ;;
    if (years =? infinity)%float then Ret Unreachable
    else
      df_projection <- build_projection_table current_value annual_rate
                         monthly_contribution years ;;
      Ret (Projection years df_projection).

(** The one row of [summary_df]. *)
Definition summary_row (selected_portfolio : string)
    (current_value target_value monthly_contribution annual_rate years : float)
    : Series :=
  [ ("Portfolio Type", Text selected_portfolio);
    ("Current Value", Number current_value);
    ("Target Value", Number target_value);
    ("Monthly Contribution", Number monthly_contribution);
    ("Estimated Annual Return", Number annual_rate);
    ("Years to Goal", Number years) ].

End App.

(** * Facts *)

Set Warnings "-inexact-float".

(** Closed facts are settled by running the definitions. *)
Ltac evaluate :=
  repeat (match goal with |- _ /\ _ => split end); vm_compute; reflexivity.

(** ** Comparisons of binary64 numbers *)

Section Comparisons.
Local Open Scope float_scope.

Lemma SFcompare_antisym (x y : spec_float) :
  SFcompare y x = option_map CompOpp (SFcompare x y).
Proof.
  destruct x as [sx|sx| |sx mx ex], y as [sy|sy| |sy my ey]; simpl;
    try reflexivity; try (destruct sx; reflexivity); try (destruct sy; reflexivity);
    try (destruct sx, sy; reflexivity).
  destruct sx, sy; simpl; try reflexivity;
    rewrite (Z.compare_antisym ex ey); destruct (ex ?= ey)%Z eqn:E; simpl; try reflexivity;
    change (PosDef.Pos.compare_cont Eq my mx) with (Pos.compare_cont (CompOpp Eq) my mx);
    rewrite <- (Pos.compare_cont_antisym mx my Eq);
    destruct (Pos.compare_cont Eq mx my); reflexivity.
Qed.

Lemma ltb_leb_false (x y : float) : (x <? y) = true -> (y <=? x) = false.
Proof.
  rewrite ltb_spec, leb_spec. unfold SFltb, SFleb.
  rewrite (SFcompare_antisym (Prim2SF x) (Prim2SF y)).
  destruct (SFcompare (Prim2SF x) (Prim2SF y)) as [[ | | ]|]; simpl; congruence.
Qed.

Lemma leb_false_neq0 (p : float) : (p <=? 0) = false -> (p =? 0) = false.
Proof.
  rewrite leb_spec, FloatAxioms.eqb_spec. unfold SFleb, SFeqb.
  change (Prim2SF 0) with (S754_zero false).
  destruct (Prim2SF p) as [s|s| |s m e]; simpl; try congruence; destruct s; congruence.
Qed.

Lemma pos_neq0 (p : float) : (0 <? p) = true -> (p =? 0) = false.
Proof. intros Hp. apply leb_false_neq0, ltb_leb_false, Hp. Qed.

Lemma finite_not_inf (x : float) : B64.finite x = true -> (x =? infinity) = false.
Proof.
  unfold B64.finite. rewrite FloatAxioms.eqb_spec. unfold SFeqb.
  change (Prim2SF infinity) with (S754_infinity false).
  destruct (Prim2SF x) as [s|s| |s m e]; simpl; try congruence; destruct s; congruence.
Qed.

Lemma finite_ceil (x : float) :
  B64.finite x = true -> B64.ceil x = Ret (Qceiling (B64.value x)).
Proof.
  unfold B64.finite, B64.ceil, B64.value.
  destruct (Prim2SF x); congruence.
Qed.

Lemma value_SF_nonneg (m : positive) (e : Z) :
  (0 <= B64.value_SF (S754_finite false m e))%Q.
Proof.
  unfold B64.value_SF. destruct e as [|k|k]; unfold Qle, inject_Z; cbn [Qnum Qden].
  - lia.
  - assert (0 <= 2 ^ Z.pos k)%Z by (apply Z.pow_nonneg; lia). nia.
  - lia.
Qed.

Lemma nonneg_value (x : float) : (0 <=? x) = true -> (0 <= B64.value x)%Q.
Proof.
  rewrite leb_spec. unfold SFleb, B64.value.
  change (Prim2SF 0) with (S754_zero false).
  destruct (Prim2SF x) as [s|s| |s m e]; simpl; try (intros _; apply Qle_refl).
  destruct s; [discriminate|]. intros _. apply value_SF_nonneg.
Qed.

End Comparisons.

(** ** The two library functions on known values *)

Section KnownValues.
Local Open Scope float_scope.

Example round2_known_values :
  B64.round2 2.675 = 2.67 /\ B64.round2 0.125 = 0.12 /\ B64.round2 0.375 = 0.38 /\
  B64.round2 1234.5678 = 1234.57 /\ B64.round2 (-0.001) = -0 /\
  B64.round2 1e300 = 1e300 /\ B64.round2 infinity = infinity.
Proof. evaluate. Qed.

Example math_log_known_values :
  math_log 1 = Ret 0 /\
  math_log 2 = Ret 0.6931471805599453 /\
  math_log 10 = Ret 2.302585092994046 /\
  math_log 0.5 = Ret (-0.6931471805599453) /\
  math_log 0x1p-1074 = Ret (-744.4400719213812) /\
  math_log 0 = Raise ValueError /\
  math_log (-1) = Raise ValueError /\
  math_log infinity = Ret infinity.
Proof. evaluate. Qed.

End KnownValues.

(** ** The solver, branch by branch *)

Section Solver.
Local Open Scope float_scope.

(** C5. When [current_value >= target_value] the solver returns 0, whatever
    the annual rate and the monthly contribution are: the test comes first
    and no other branch is looked at. *)
Theorem already_met (current target rate pmt : float) :
  (target <=? current) = true ->
  calculate_years_to_target current target rate pmt = Ret 0.
Proof.
  intros Hge. unfold calculate_years_to_target. now rewrite Hge.
Qed.

Lemma already_met_witness : calculate_years_to_target 1000 500 0.08 100 = Ret 0.
Proof. apply already_met. reflexivity. Defined.

(** C3. With [current < target] and [annual_rate <= 0]: a contribution
    [<= 0] gives the unreachable sentinel, any other contribution gives
    [((target - current) / contribution) / 12] rounded to two decimals. *)
Theorem no_growth (current target rate pmt : float) :
  (current <? target) = true ->
  (rate <=? 0) = true ->
  ((pmt <=? 0) = true ->
     calculate_years_to_target current target rate pmt = Ret infinity) /\
  ((pmt <=? 0) = false ->
     calculate_years_to_target current target rate pmt
     = Ret (B64.round2 ((target - current) / pmt / 12))).
Proof.
  intros Hlt Hrate. apply ltb_leb_false in Hlt.
  unfold calculate_years_to_target. rewrite Hlt, Hrate. split; intros Hp.
  - now rewrite Hp.
  - rewrite Hp. unfold truediv. now rewrite (leb_false_neq0 _ Hp).
Qed.

Lemma no_growth_witness : calculate_years_to_target 0 1200 0 100 = Ret 1.
Proof.
  destruct (no_growth 0 1200 0 100 eq_refl eq_refl) as [_ Hpos].
  rewrite (Hpos eq_refl). vm_compute. reflexivity.
Defined.


(** Compounding with contributions (positive rate, positive contribution),
    once [pmt / r] is defined: the sentinel when the denominator or the
    ratio is [<= 0], and otherwise the quotient of the two logarithms. *)
Lemma annuity_branch (current target rate pmt a : float) :
  (current <? target) = true ->
  (0 <? rate) = true ->
  (0 <? pmt) = true ->
  truediv pmt (rate / 12) = Ret a ->
  let x := (target + a) / (current + a) in
  ((current + a <=? 0) = true ->
     calculate_years_to_target current target rate pmt = Ret infinity) /\
  ((current + a <=? 0) = false -> (x <=? 0) = true ->
     calculate_years_to_target current target rate pmt = Ret infinity) /\
  ((current + a <=? 0) = false -> (x <=? 0) = false ->
     calculate_years_to_target current target rate pmt
     = (l1 <- math_log x ;;
        l2 <- math_log (1 + rate / 12) ;;
        months <- truediv l1 l2 ;;
        Ret (B64.round2 (months / 12)))).
Proof.
  intros Hlt Hrate Hpmt Ha x.
  apply ltb_leb_false in Hlt. apply ltb_leb_false in Hrate. apply pos_neq0 in Hpmt.
  unfold calculate_years_to_target. rewrite Hlt, Hrate, Hpmt, Ha. cbn [bind].
  repeat split.
  - intros Hd. now rewrite Hd.
  - intros Hd Hx. rewrite Hd. unfold truediv at 1.
    rewrite (leb_false_neq0 _ Hd). cbn [bind]. fold x. now rewrite Hx.
  - intros Hd Hx. rewrite Hd. unfold truediv at 1.
    rewrite (leb_false_neq0 _ Hd). cbn [bind]. fold x. now rewrite Hx.
Qed.

(** C7. The solver does raise on finite inputs.  With a positive rate so
    small that [1 + r] rounds to 1, [math.log(1 + r)] is 0 and the division
    by it raises; with the smallest positive rate [r] itself is 0 and
    [pmt / r] raises.  With a huge contribution [pmt / r] overflows and the
    result is NaN, neither a finite number nor the sentinel. *)
Theorem solver_raises_on_finite_input :
  calculate_years_to_target 1000 2000 1e-16 0 = Raise ZeroDivisionError /\
  calculate_years_to_target 0 1000 0x1p-1074 100 = Raise ZeroDivisionError /\
  calculate_years_to_target 0 1000 1e-9 1e308 = Ret nan.
Proof. evaluate. Qed.

(** C4. Pure compounding at the rate [1e-17]: the inputs are finite,
    [current < target], the rate is positive and the contribution is 0, yet
    nothing is returned, because [1 + r] is 1 and its logarithm is 0. *)
Theorem pure_compounding_raises :
  (1000 <? 2000) = true /\ (0 <? 1e-17) = true /\ (1000 <=? 0) = false /\
  1 + 1e-17 / 12 = 1 /\ math_log 1 = Ret 0 /\
  calculate_years_to_target 1000 2000 1e-17 0 = Raise ZeroDivisionError.
Proof. evaluate. Qed.

(** C1. Compounding with contributions at the rate [1e-17]: the inputs are
    finite, [current < target], rate and contribution are positive, the
    denominator and the ratio are positive, yet nothing is returned: the
    ratio and [1 + r] both round to 1, and 0 is divided by 0. *)
Theorem annuity_raises :
  (0 <? 1000) = true /\ (0 <? 1e-17) = true /\ (0 <? 100) = true /\
  truediv 100 (1e-17 / 12) = Ret 1.1999999999999998e+20 /\
  (0 + 1.1999999999999998e+20 <=? 0) = false /\
  (1000 + 1.1999999999999998e+20) / (0 + 1.1999999999999998e+20) = 1 /\
  math_log 1 = Ret 0 /\
  calculate_years_to_target 0 1000 1e-17 100 = Raise ZeroDivisionError.
Proof. evaluate. Qed.

End Solver.

(** ** The loop over the years, in any arithmetic *)

Section Years.
Context {T : Type} `{Arith T}.
#[local] Opaque simulate_year.

Lemma year_loop_length (mr pmt : T) (n : nat) (year : Z) (bal : T) :
  length (year_loop mr pmt n year bal) = n.
Proof.
  revert year bal. induction n as [|n IH]; intros year bal; [reflexivity|].
  cbn [year_loop length]. rewrite IH. reflexivity.
Qed.

Lemma carried_balance_shift (mr pmt bal : T) (k : nat) :
  carried_balance mr pmt (balance (simulate_year mr pmt bal)) k
  = carried_balance mr pmt bal (S k).
Proof.
  induction k as [|k IH]; [reflexivity|].
  cbn [carried_balance] in *. rewrite IH. reflexivity.
Qed.

(** Row [k] of the table is made from the year simulated on the balance
    carried into it. *)
Lemma nth_error_year_loop (mr pmt : T) (n k : nat) (year : Z) (bal : T) :
  (k < n)%nat ->
  nth_error (year_loop mr pmt n year bal) k
  = Some (make_row (year + Z.of_nat k)
            (simulate_year mr pmt (carried_balance mr pmt bal k))).
Proof.
  revert k year bal. induction n as [|n IH]; intros k year bal Hk; [inversion Hk|].
  destruct k as [|k].
  - cbn [year_loop nth_error carried_balance Z.of_nat]. rewrite Z.add_0_r. reflexivity.
  - cbn [year_loop nth_error]. rewrite IH by (apply PeanoNat.lt_S_n; exact Hk).
    rewrite carried_balance_shift.
    replace (year + 1 + Z.of_nat k)%Z with (year + Z.of_nat (S k))%Z by lia.
    reflexivity.
Qed.



End Years.

(** ** The number of rows *)

Section RowCount.
Local Open Scope float_scope.

(** C6. For a finite horizon [>= 0] the table has exactly [ceil(horizon)]
    rows (none for a horizon of 0); for the unreachable sentinel it has
    exactly 30 rows; in both cases the builder returns. *)
Theorem row_count (current rate pmt years : float) :
  (B64.finite years = true -> (0 <=? years) = true ->
     exists rows,
       build_projection_table current rate pmt years = Ret rows /\
       Z.of_nat (length rows) = Qceiling (B64.value years)) /\
  (exists rows,
     build_projection_table current rate pmt infinity = Ret rows /\
     length rows = 30%nat).
Proof.
  split.
  - intros Hfin Hpos. unfold build_projection_table.
    cbn [is_inf ceil binary64].
    rewrite (finite_not_inf _ Hfin), (finite_ceil _ Hfin). cbn [negb bind].
    eexists. split; [reflexivity|].
    rewrite year_loop_length. apply Z2Nat.id.
    apply nonneg_value in Hpos.
    pose proof (Qle_ceiling (B64.value years)) as Hc.
    rewrite Zle_Qle. eapply Qle_trans; [exact Hpos | exact Hc].
  - unfold build_projection_table. cbn [is_inf ceil binary64].
    change (infinity =? infinity) with true. cbn [negb bind].
    eexists. split; [reflexivity|]. now rewrite year_loop_length.
Qed.

Lemma row_count_witness :
  (exists rows,
     build_projection_table 1000 0.08 0 8.69 = Ret rows /\
     Z.of_nat (length rows) = 9%Z) /\
  (exists rows,
     build_projection_table 1000 0.08 0 0 = Ret rows /\
     Z.of_nat (length rows) = 0%Z).
Proof.
  split.
  - exact (proj1 (row_count 1000 0.08 0 8.69) eq_refl eq_refl).
  - exact (proj1 (row_count 1000 0.08 0 0) eq_refl eq_refl).
Defined.

End RowCount.

(** ** Rounding to the nearest integer, ties to even *)

Lemma round_half_even_comp (x y : Q) :
  x == y -> round_half_even x = round_half_even y.
Proof.
  intros E. unfold round_half_even.
  rewrite (Qfloor_comp _ _ E).
  assert (E' : x - inject_Z (Qfloor y) == y - inject_Z (Qfloor y))
    by (rewrite E; reflexivity).
  now rewrite (Qcompare_comp _ _ E' (1 # 2) (1 # 2) (Qeq_refl _)).
Qed.

Lemma floor_bounds (x : Q) :
  inject_Z (Qfloor x) <= x /\ x < inject_Z (Qfloor x) + 1.
Proof.
  split; [apply Qfloor_le|].
  pose proof (Qlt_floor x) as H. rewrite inject_Z_plus in H. exact H.
Qed.



Lemma round_half_even_mono (x y : Q) :
  x <= y -> (round_half_even x <= round_half_even y)%Z.
Proof.
  intros Hxy.
  pose proof (Qfloor_resp_le _ _ Hxy) as Hf.
  unfold round_half_even.
  destruct (floor_bounds x) as [Hlx Hhx]. destruct (floor_bounds y) as [Hly Hhy].
  revert Hf Hlx Hhx Hly Hhy. generalize (Qfloor x) (Qfloor y).
  intros fx fy Hf Hlx Hhx Hly Hhy.
  destruct (Z.eq_dec fx fy) as [E|NE].
  - subst fy.
    destruct (Qcompare_spec (x - inject_Z fx) (1 # 2)) as [Ex|Lx|Gx];
    destruct (Qcompare_spec (y - inject_Z fx) (1 # 2)) as [Ey|Ly|Gy];
    try destruct (Z.even fx); try lia; exfalso; lra.
  - assert (fx + 1 <= fy)%Z by lia.
    destruct (Qcompare (x - inject_Z fx) (1 # 2)),
             (Qcompare (y - inject_Z fy) (1 # 2));
    try destruct (Z.even fx); try destruct (Z.even fy); lia.
Qed.

(** ** Exact arithmetic *)

Lemma qround2_comp (x y : Q) : x == y -> Exact.qround2 x = Exact.qround2 y.
Proof.
  intros E. unfold Exact.qround2. f_equal. apply round_half_even_comp. now rewrite E.
Qed.


Lemma qround2_mono (x y : Q) : x <= y -> Exact.qround2 x <= Exact.qround2 y.
Proof.
  intros Hxy. unfold Exact.qround2, Qle; simpl.
  apply Z.mul_le_mono_nonneg_r; [lia|].
  apply round_half_even_mono. lra.
Qed.

Lemma qadd_eq (x y : Q) : Exact.qadd x y == x + y.
Proof. apply Qred_correct. Qed.

Lemma qsub_eq (x y : Q) : Exact.qsub x y == x - y.
Proof. apply Qred_correct. Qed.

Lemma qmul_eq (x y : Q) : Exact.qmul x y == x * y.
Proof. apply Qred_correct. Qed.

Lemma qdiv_eq (x y : Q) : Exact.qdiv x y == x / y.
Proof. apply Qred_correct. Qed.

(** One simulated year in exact arithmetic. *)
Section ExactYear.
Variables mr pmt : Q.

Lemma month_year_inv (b : Q) (s : Running Q) :
  year_inv b s -> year_inv b (month mr pmt s).
Proof.
  unfold year_inv, month.
  cbn [balance growth_this_year contributions_this_year add mul exact].
  intros Hs. rewrite !qadd_eq, qmul_eq. lra.
Qed.

Lemma iter_year_inv (b : Q) (s : Running Q) (n : nat) :
  year_inv b s -> year_inv b (Nat.iter n (month mr pmt) s).
Proof.
  intros Hs. induction n as [|n IH]; [exact Hs|].
  cbn [Nat.iter nat_rect]. apply month_year_inv, IH.
Qed.

Lemma simulate_year_inv (b : Q) : year_inv b (simulate_year mr pmt b).
Proof.
  unfold simulate_year. apply iter_year_inv.
  unfold year_inv. cbn [balance growth_this_year contributions_this_year zero exact].
  lra.
Qed.


Lemma derived_start (b : Q) :
  round2 (sub (sub (balance (simulate_year mr pmt b))
                   (growth_this_year (simulate_year mr pmt b)))
              (contributions_this_year (simulate_year mr pmt b)))
  = round2 b.
Proof.
  pose proof (simulate_year_inv b) as Hinv. unfold year_inv in Hinv.
  revert Hinv.
  generalize (simulate_year mr pmt b). intros s Hinv.
  cbn [round2 sub exact]. apply qround2_comp.
  rewrite !qsub_eq, Hinv. ring.
Qed.

Hypothesis mr_nonneg : 0 <= mr.
Hypothesis pmt_nonneg : 0 <= pmt.

Lemma month_grows (b : Q) (s : Running Q) :
  0 <= b -> b <= balance s -> b <= balance (month mr pmt s).
Proof.
  intros Hb Hs. unfold month. cbn [balance add mul exact].
  rewrite !qadd_eq, qmul_eq.
  assert (0 <= balance s * mr) by (apply Qmult_le_0_compat; lra).
  lra.
Qed.

Lemma iter_grows (b : Q) (s : Running Q) (n : nat) :
  0 <= b -> b <= balance s -> b <= balance (Nat.iter n (month mr pmt) s).
Proof.
  intros Hb Hs. induction n as [|n IH]; [exact Hs|].
  cbn [Nat.iter nat_rect]. apply month_grows; assumption.
Qed.

Lemma simulate_year_grows (b : Q) :
  0 <= b -> b <= balance (simulate_year mr pmt b).
Proof.
  intros Hb. unfold simulate_year. apply iter_grows; [exact Hb|].
  cbn [balance]. lra.
Qed.

End ExactYear.

(** The balance carried from year to year never decreases. *)
Section ExactYears.
Variables mr pmt : Q.
Hypothesis mr_nonneg : 0 <= mr.
Hypothesis pmt_nonneg : 0 <= pmt.
#[local] Opaque simulate_year.

Lemma carried_balance_grows (c : Q) (k : nat) :
  0 <= c ->
  0 <= carried_balance mr pmt c k /\
  carried_balance mr pmt c k <= carried_balance mr pmt c (S k).
Proof.
  intros Hc. induction k as [|k [IH0 IH1]].
  - split; [exact Hc|]. cbn [carried_balance].
    apply simulate_year_grows; assumption.
  - assert (H0 : 0 <= carried_balance mr pmt c (S k))
      by (eapply Qle_trans; eassumption).
    split; [exact H0|].
    cbn [carried_balance] in *. apply simulate_year_grows; assumption.
Qed.

End ExactYears.

(** ** The table in exact arithmetic *)

Section ExactTable.
#[local] Opaque simulate_year.


Lemma monthly_rate_nonneg (r : Q) : 0 <= r -> 0 <= div r twelve.
Proof.
  intros Hr. cbn [div twelve exact]. rewrite qdiv_eq.
  apply Qle_shift_div_l; [reflexivity|]. lra.
Qed.






End ExactTable.

(** ** Tables in binary64 *)

Section Binary64Tables.
Local Open Scope float_scope.


(** The same inputs in exact arithmetic: the bound of two cents is met. *)
Example exact_row_two_cents_apart :
  exists w,
    build_projection_table (4194303625 # 1000)%Q 3%Q (9375 # 100000)%Q 1%Q = Ret [w] /\
    (row_gap w == 2 # 100)%Q.
Proof.
  eexists. split; [vm_compute; reflexivity | vm_compute; reflexivity].
Qed.

(** The inputs the application starts with (10000, 6%, 500 a month, 38.47
    years to a million): in row 17 the distance exceeds one cent by the
    rounding of the four floats. *)
Example default_inputs_row_17 :
  exists rows w,
    build_projection_table 10000 0.06 500 38.47 = Ret rows /\
    nth_error rows 16 = Some w /\
    (1 # 100 < row_gap64 w)%Q /\
    (abs (Starting_Balance w + Contributions w + Growth w - Ending_Balance w)
       <=? 0.01) = false.
Proof.
  do 2 eexists. split; [vm_compute; reflexivity|].
  split; [reflexivity|]. split; vm_compute; reflexivity.
Qed.






End Binary64Tables.

(** * Further facts *)

(** ** The rows of a table, in any arithmetic *)

Section Rows.
Context {T : Type} `{Arith T}.
#[local] Opaque simulate_year.

Lemma year_loop_years (mr pmt : T) (n : nat) (year : Z) (bal : T) :
  map Year (year_loop mr pmt n year bal)
  = map (fun k => (year + Z.of_nat k)%Z) (seq 0 n).
Proof.
  revert year bal. induction n as [|n IH]; intros year bal; [reflexivity|].
  cbn [year_loop map seq make_row Year]. rewrite IH, <- seq_shift, map_map.
  f_equal; [cbn; lia|]. apply map_ext. intros k. lia.
Qed.

(** The years after the first [n] are the years of a table started from the
    balance carried out of year [n]. *)
Lemma year_loop_app (mr pmt : T) (n m : nat) (year : Z) (bal : T) :
  year_loop mr pmt (n + m) year bal
  = year_loop mr pmt n year bal
    ++ year_loop mr pmt m (year + Z.of_nat n) (carried_balance mr pmt bal n).
Proof.
  revert year bal. induction n as [|n IH]; intros year bal.
  - cbn [Nat.add year_loop app carried_balance Z.of_nat]. now rewrite Z.add_0_r.
  - cbn [Nat.add year_loop app]. rewrite IH, carried_balance_shift.
    replace (year + 1 + Z.of_nat n)%Z with (year + Z.of_nat (S n))%Z by lia.
    reflexivity.
Qed.

Lemma year_loop_row (mr pmt : T) (n k : nat) (year : Z) (bal : T) (w : Row T) :
  nth_error (year_loop mr pmt n year bal) k = Some w ->
  w = make_row (year + Z.of_nat k)
        (simulate_year mr pmt (carried_balance mr pmt bal k)).
Proof.
  intros E.
  assert (Hk : (k < n)%nat).
  { rewrite <- (year_loop_length mr pmt n year bal). apply nth_error_Some. congruence. }
  rewrite (nth_error_year_loop _ _ _ _ _ _ Hk) in E. congruence.
Qed.

(** A table that was returned is the loop over as many years as it has
    rows. *)
Lemma build_inv (current rate pmt years : T) (rows : list (Row T)) :
  build_projection_table current rate pmt years = Ret rows ->
  rows = year_loop (div rate twelve) pmt (length rows) 1 current.
Proof.
  unfold build_projection_table.
  destruct (if negb (is_inf years) then ceil years else Ret 30%Z) as [n|e];
    cbn [bind]; [|discriminate].
  intros E. injection E as <-. now rewrite year_loop_length.
Qed.

End Rows.

Section Columns.
Context {T : Type} `{Arith T}.

Lemma iter_month_contributions (mr pmt : T) (n : nat) (s : Running T) :
  contributions_this_year (Nat.iter n (month mr pmt) s)
  = Nat.iter n (fun c => add c pmt) (contributions_this_year s).
Proof.
  induction n as [|n IH]; [reflexivity|].
  rewrite !Nat.iter_succ. unfold month at 1. cbn [contributions_this_year].
  now rewrite IH.
Qed.

Lemma simulate_year_contributions (mr pmt bal : T) :
  contributions_this_year (simulate_year mr pmt bal) = contributions_of_year pmt.
Proof. unfold simulate_year. apply iter_month_contributions. Qed.

Lemma year_loop_contributions (mr pmt : T) (n : nat) (year : Z) (bal : T) :
  Forall (fun w => Contributions w = round2 (contributions_of_year pmt))
         (year_loop mr pmt n year bal).
Proof.
  revert year bal. induction n as [|n IH]; intros year bal; [constructor|].
  cbn [year_loop]. constructor; [|apply IH].
  unfold make_row. cbn [Contributions]. now rewrite simulate_year_contributions.
Qed.

End Columns.

Section Tables.
Context {T : Type} `{Arith T}.
#[local] Opaque simulate_year.

(** X4. In binary64 and in exact arithmetic alike, the rows of a returned
    table are numbered 1, 2, 3, ... in the [Year] column, without gap or
    repetition. *)
Theorem years_are_numbered (current rate pmt years : T) (rows : list (Row T)) :
  build_projection_table current rate pmt years = Ret rows ->
  map Year rows = map Z.of_nat (seq 1 (length rows)).
Proof.
  intros E. rewrite (build_inv _ _ _ _ _ E) at 1.
  rewrite year_loop_years, <- seq_shift, map_map.
  apply map_ext. intros k. lia.
Qed.

(** X5. In binary64 and in exact arithmetic alike, every row of a returned
    table shows the same contributions: twelve additions of the monthly
    contribution to 0, rounded to two decimals.  The column depends neither
    on the current value nor on the rate nor on the year. *)
Theorem contributions_column_constant (current rate pmt years : T)
    (rows : list (Row T)) :
  build_projection_table current rate pmt years = Ret rows ->
  Forall (fun w => Contributions w = round2 (contributions_of_year pmt)) rows.
Proof.
  intros E. rewrite (build_inv _ _ _ _ _ E). apply year_loop_contributions.
Qed.

(** X6. A longer horizon only adds rows: of two tables built from the same
    current value, rate and contribution, the shorter is the beginning of
    the longer. *)
Theorem longer_horizon_extends (current rate pmt years1 years2 : T)
    (rows1 rows2 : list (Row T)) :
  build_projection_table current rate pmt years1 = Ret rows1 ->
  build_projection_table current rate pmt years2 = Ret rows2 ->
  (length rows1 <= length rows2)%nat ->
  firstn (length rows1) rows2 = rows1.
Proof.
  intros E1 E2 Hle.
  pose proof (build_inv _ _ _ _ _ E1) as R1.
  pose proof (build_inv _ _ _ _ _ E2) as R2.
  revert Hle R1 R2. generalize (length rows1) (length rows2).
  intros n1 n2 Hle -> ->.
  replace n2 with (n1 + (n2 - n1))%nat by lia.
  rewrite year_loop_app.
  rewrite <- (year_loop_length (div rate twelve) pmt n1 1 current) at 1.
  rewrite firstn_app, Nat.sub_diag, firstn_all. cbn [firstn]. apply app_nil_r.
Qed.

End Tables.

Section TablesWitnesses.
Local Open Scope float_scope.

Lemma years_are_numbered_witness :
  exists rows,
    build_projection_table 1000 0.08 100 2.5 = Ret rows /\
    map Year rows = [1; 2; 3]%Z.
Proof.
  eexists. split; [vm_compute; reflexivity|].
  refine (years_are_numbered (T := float) 1000 0.08 100 2.5 _ _).
  vm_compute; reflexivity.
Defined.

Lemma contributions_column_constant_witness :
  exists rows,
    build_projection_table 1000 0.08 100 2.5 = Ret rows /\
    Forall (fun w => Contributions w = 1200) rows.
Proof.
  eexists. split; [vm_compute; reflexivity|].
  refine (contributions_column_constant (T := float) 1000 0.08 100 2.5 _ _).
  vm_compute; reflexivity.
Defined.

Lemma longer_horizon_extends_witness :
  exists rows1 rows2,
    build_projection_table 1000 0.08 100 1.5 = Ret rows1 /\
    build_projection_table 1000 0.08 100 2.5 = Ret rows2 /\
    firstn (length rows1) rows2 = rows1.
Proof.
  do 2 eexists. split; [vm_compute; reflexivity|].
  split; [vm_compute; reflexivity|].
  refine (longer_horizon_extends (T := float) 1000 0.08 100 1.5 2.5 _ _ _ _ _).
  - vm_compute; reflexivity.
  - vm_compute; reflexivity.
  - cbn [length]. lia.
Defined.

End TablesWitnesses.

(** ** Horizons that are not positive numbers *)

Section Horizons.
Local Open Scope float_scope.

Lemma value_SF_nonpos (m : positive) (e : Z) :
  (B64.value_SF (S754_finite true m e) <= 0)%Q.
Proof.
  unfold B64.value_SF. destruct e as [|k|k]; unfold Qle, inject_Z; cbn [Qnum Qden].
  - lia.
  - assert (0 <= 2 ^ Z.pos k)%Z by (apply Z.pow_nonneg; lia). nia.
  - lia.
Qed.

Lemma nonpos_value (x : float) : (x <=? 0) = true -> (B64.value x <= 0)%Q.
Proof.
  rewrite leb_spec. unfold SFleb, B64.value.
  change (Prim2SF 0) with (S754_zero false).
  destruct (Prim2SF x) as [s|s| |s m e]; simpl; try (intros _; apply Qle_refl).
  destruct s; [|discriminate]. intros _. apply value_SF_nonpos.
Qed.

Lemma ceil_nonpositive (x : float) :
  (x <=? 0) = true -> Z.to_nat (Qceiling (B64.value x)) = O.
Proof.
  intros Hneg. apply nonpos_value in Hneg.
  assert (Hc : (Qceiling (B64.value x) <= 0)%Z).
  { change 0%Z with (Qceiling 0). now apply Qceiling_resp_le. }
  lia.
Qed.

(** X7. A finite horizon that is [<= 0] (a negative number, or zero with
    either sign) gives the table with no rows: [range(1, total_years + 1)]
    is empty. *)
Theorem nonpositive_horizon_empty (current rate pmt years : float) :
  B64.finite years = true ->
  (years <=? 0) = true ->
  build_projection_table current rate pmt years = Ret [].
Proof.
  intros Hfin Hneg. unfold build_projection_table. cbn [is_inf ceil binary64].
  rewrite (finite_not_inf _ Hfin), (finite_ceil _ Hfin). cbn [negb bind].
  now rewrite (ceil_nonpositive _ Hneg).
Qed.

Lemma nonpositive_horizon_empty_witness :
  build_projection_table 1000 0.08 100 (-2.5) = Ret [].
Proof. apply nonpositive_horizon_empty; reflexivity. Defined.

Lemma infinite_cases (y : float) :
  B64.finite y = false -> y = nan \/ y = infinity \/ y = neg_infinity.
Proof.
  unfold B64.finite. intros H.
  rewrite <- (SF2Prim_Prim2SF y).
  destruct (Prim2SF y) as [s|s| |s m e]; try discriminate; auto.
  destruct s; auto.
Qed.

(** X8. Every outcome of the builder, for every horizon.  It returns 30
    rows for [+inf] and [max(0, ceil(years))] rows for a finite horizon;
    only [+inf] is taken for the sentinel, so that NaN and [-inf] reach
    [math.ceil], which raises [ValueError] on the first and [OverflowError]
    on the second.  The other three arguments play no part in this. *)
Theorem builder_outcomes (current rate pmt years : float) :
  match build_projection_table current rate pmt years with
  | Ret rows =>
      (years = infinity /\ length rows = 30%nat) \/
      (B64.finite years = true /\
       Z.of_nat (length rows) = Z.max 0 (Qceiling (B64.value years)))
  | Raise e =>
      (years = nan /\ e = ValueError) \/
      (years = neg_infinity /\ e = OverflowError)
  end.
Proof.
  unfold build_projection_table. cbn [is_inf ceil binary64].
  destruct (B64.finite years) eqn:Hfin.
  - rewrite (finite_not_inf _ Hfin), (finite_ceil _ Hfin). cbn [negb bind].
    right. split; [reflexivity|]. rewrite year_loop_length. lia.
  - destruct (infinite_cases years Hfin) as [-> | [-> | ->] ].
    + change (nan =? infinity) with false. cbn [negb].
      change (B64.ceil nan) with (@Raise Z ValueError). cbn [bind].
      left. split; reflexivity.
    + change (infinity =? infinity) with true. cbn [negb bind].
      left. split; [reflexivity|]. now rewrite year_loop_length.
    + change (neg_infinity =? infinity) with false. cbn [negb].
      change (B64.ceil neg_infinity) with (@Raise Z OverflowError). cbn [bind].
      right. split; reflexivity.
Qed.

End Horizons.

(** ** Closed forms in exact arithmetic *)

Lemma Qpower_nat_succ (a : Q) (n : nat) :
  a ^ Z.of_nat (S n) == a ^ Z.of_nat n * a.
Proof.
  rewrite Nat2Z.inj_succ. unfold Z.succ.
  rewrite Qpower_plus' by lia. rewrite Qpower_1_r. reflexivity.
Qed.

Lemma Qpower_nat_add (a : Q) (n m : nat) :
  a ^ Z.of_nat (n + m) == a ^ Z.of_nat n * a ^ Z.of_nat m.
Proof.
  induction m as [|m IH].
  - rewrite Nat.add_0_r. change (a ^ Z.of_nat 0) with 1. ring.
  - rewrite Nat.add_succ_r, !Qpower_nat_succ, IH. ring.
Qed.

Lemma future_value_comp (pv r r' pmt : Q) (n : nat) :
  r == r' -> future_value pv r pmt n == future_value pv r' pmt n.
Proof. intros E. unfold future_value. now rewrite E. Qed.

Lemma monthly_rate_zero (rate : Q) : div rate twelve == 0 <-> rate == 0.
Proof.
  cbn [div twelve exact]. rewrite qdiv_eq. split; intros E.
  - assert (E' : rate == rate / 12 * 12) by (field). rewrite E', E. ring.
  - rewrite E. reflexivity.
Qed.

Lemma qround2_nonneg (x : Q) : 0 <= x -> 0 <= Exact.qround2 x.
Proof.
  intros Hx. apply (Qle_trans _ (Exact.qround2 0)); [|now apply qround2_mono].
  unfold Qle; simpl; lia.
Qed.

Lemma contributions_of_year_exact (pmt : Q) : contributions_of_year pmt == 12 * pmt.
Proof.
  unfold contributions_of_year. cbn [Nat.iter nat_rect add zero exact].
  rewrite !qadd_eq. ring.
Qed.

(** One month and one year in exact arithmetic. *)
Section ExactMonths.
Variables mr pmt : Q.

Lemma month_balance_exact (s : Running Q) :
  balance (month mr pmt s) == balance s + balance s * mr + pmt.
Proof.
  unfold month. cbn [balance add mul exact]. rewrite !qadd_eq, qmul_eq. ring.
Qed.

Lemma month_growth_exact (s : Running Q) :
  growth_this_year (month mr pmt s) == growth_this_year s + balance s * mr.
Proof.
  unfold month. cbn [growth_this_year add mul exact]. now rewrite qadd_eq, qmul_eq.
Qed.

Lemma month_contributions_exact (s : Running Q) :
  contributions_this_year (month mr pmt s) == contributions_this_year s + pmt.
Proof. unfold month. cbn [contributions_this_year add exact]. apply qadd_eq. Qed.

(** A month multiplies [r * balance + pmt] by [1 + r]. *)
Lemma month_affine (s : Running Q) :
  mr * balance (month mr pmt s) + pmt == (mr * balance s + pmt) * (1 + mr).
Proof. rewrite month_balance_exact. ring. Qed.

Lemma iter_affine (n : nat) (s : Running Q) :
  mr * balance (Nat.iter n (month mr pmt) s) + pmt
  == (mr * balance s + pmt) * (1 + mr) ^ Z.of_nat n.
Proof.
  induction n as [|n IH].
  - cbn [Nat.iter nat_rect]. change ((1 + mr) ^ Z.of_nat 0) with 1. ring.
  - rewrite Nat.iter_succ, month_affine, IH, Qpower_nat_succ. ring.
Qed.

Lemma simulate_year_affine (b : Q) :
  mr * balance (simulate_year mr pmt b) + pmt
  == (mr * b + pmt) * (1 + mr) ^ 12.
Proof. unfold simulate_year. apply (iter_affine 12). Qed.

Lemma iter_zero_rate (n : nat) (s : Running Q) :
  mr == 0 ->
  balance (Nat.iter n (month mr pmt) s) == balance s + inject_Z (Z.of_nat n) * pmt /\
  growth_this_year (Nat.iter n (month mr pmt) s) == growth_this_year s.
Proof.
  intros Hmr. induction n as [|n [IHb IHg]].
  - cbn [Nat.iter nat_rect Z.of_nat]. split; [|reflexivity].
    change (inject_Z 0) with 0. ring.
  - rewrite Nat.iter_succ, month_balance_exact, month_growth_exact, IHb, IHg, Hmr.
    rewrite Nat2Z.inj_succ. unfold Z.succ. rewrite inject_Z_plus.
    change (inject_Z 1) with 1. split; ring.
Qed.

Lemma simulate_year_zero_rate (b : Q) :
  mr == 0 ->
  balance (simulate_year mr pmt b) == b + 12 * pmt /\
  growth_this_year (simulate_year mr pmt b) == 0.
Proof.
  intros Hmr. unfold simulate_year.
  destruct (iter_zero_rate 12 (mkRunning b zero zero) Hmr) as [Eb Eg].
  split; [rewrite Eb | rewrite Eg]; cbn [balance growth_this_year zero exact].
  - change (inject_Z (Z.of_nat 12)) with 12. reflexivity.
  - reflexivity.
Qed.

Hypothesis mr_nonneg : 0 <= mr.
Hypothesis pmt_nonneg : 0 <= pmt.

Lemma iter_nonneg (n : nat) (s : Running Q) :
  0 <= balance s -> 0 <= growth_this_year s -> 0 <= contributions_this_year s ->
  0 <= balance (Nat.iter n (month mr pmt) s) /\
  0 <= growth_this_year (Nat.iter n (month mr pmt) s) /\
  0 <= contributions_this_year (Nat.iter n (month mr pmt) s).
Proof.
  intros Hb Hg Hc. induction n as [|n (IHb & IHg & IHc)]; [tauto|].
  rewrite Nat.iter_succ, month_balance_exact, month_growth_exact,
    month_contributions_exact.
  assert (0 <= balance (Nat.iter n (month mr pmt) s) * mr)
    by (apply Qmult_le_0_compat; assumption).
  repeat split; lra.
Qed.

Lemma simulate_year_nonneg (b : Q) :
  0 <= b ->
  0 <= growth_this_year (simulate_year mr pmt b) /\
  0 <= contributions_this_year (simulate_year mr pmt b).
Proof.
  intros Hb. unfold simulate_year.
  destruct (iter_nonneg 12 (mkRunning b zero zero)) as (_ & Hg & Hc);
    cbn [balance growth_this_year contributions_this_year zero exact];
    try lra; try apply Qle_refl.
  split; assumption.
Qed.

End ExactMonths.

(** The balance carried from year to year, in closed form. *)
Section ExactCarried.
Variables mr pmt : Q.
#[local] Opaque simulate_year.

Lemma carried_affine (c : Q) (k : nat) :
  mr * carried_balance mr pmt c k + pmt
  == (mr * c + pmt) * (1 + mr) ^ Z.of_nat (12 * k).
Proof.
  induction k as [|k IH].
  - cbn [carried_balance]. change ((1 + mr) ^ Z.of_nat (12 * 0)) with 1. ring.
  - cbn [carried_balance]. rewrite simulate_year_affine, IH.
    replace (12 * S k)%nat with (12 * k + 12)%nat by lia.
    rewrite Qpower_nat_add. change (Z.of_nat 12) with 12%Z. ring.
Qed.

Lemma carried_future_value (c : Q) (k : nat) :
  ~ mr == 0 ->
  carried_balance mr pmt c k == future_value c mr pmt (12 * k).
Proof.
  intros Hmr. pose proof (carried_affine c k) as E. unfold future_value.
  revert E. generalize (carried_balance mr pmt c k) ((1 + mr) ^ Z.of_nat (12 * k)).
  intros B P E.
  assert (EB : B == ((mr * c + pmt) * P - pmt) / mr).
  { rewrite <- E. field. exact Hmr. }
  rewrite EB. field. exact Hmr.
Qed.

Lemma carried_zero_rate (c : Q) (k : nat) :
  mr == 0 ->
  carried_balance mr pmt c k == c + inject_Z (12 * Z.of_nat k) * pmt.
Proof.
  intros Hmr. induction k as [|k IH].
  - cbn [carried_balance Z.of_nat]. change (inject_Z (12 * 0)) with 0. ring.
  - cbn [carried_balance].
    destruct (simulate_year_zero_rate mr pmt (carried_balance mr pmt c k) Hmr) as [E _].
    rewrite E, IH. rewrite Nat2Z.inj_succ. unfold Z.succ.
    rewrite Z.mul_add_distr_l, !inject_Z_plus, !inject_Z_mult.
    change (inject_Z 12) with 12. change (inject_Z 1) with 1. ring.
Qed.

End ExactCarried.

Section ExactClosedForms.
#[local] Opaque simulate_year.

Lemma build_exact (current rate pmt years : Q) :
  build_projection_table current rate pmt years
  = Ret (year_loop (div rate twelve) pmt (Z.to_nat (Qceiling years)) 1 current).
Proof. reflexivity. Qed.

(** X9. In exact arithmetic and with a rate other than 0, the ending
    balance of year [k + 1] is the future value formula of the solver's
    docstring, [PV * (1+r)^n + PMT * ((1+r)^n - 1) / r] with [r] the twelfth
    of the annual rate and [n = 12 * (k + 1)] months, rounded to two
    decimals: the table projects what the solver solves for. *)
Theorem exact_table_is_future_value (current rate pmt years : Q) :
  ~ rate == 0 ->
  exists rows,
    build_projection_table current rate pmt years = Ret rows /\
    forall (k : nat) (w : Row Q),
      nth_error rows k = Some w ->
      Ending_Balance w
      = Exact.qround2 (future_value current (rate / 12) pmt (12 * (k + 1))).
Proof.
  intros Hrate. rewrite build_exact. eexists. split; [reflexivity|].
  intros k w E. apply year_loop_row in E. subst w.
  cbn [make_row Ending_Balance round2 exact]. apply qround2_comp.
  change (balance (simulate_year (div rate twelve) pmt
                     (carried_balance (div rate twelve) pmt current k)))
    with (carried_balance (div rate twelve) pmt current (S k)).
  rewrite carried_future_value by (rewrite monthly_rate_zero; exact Hrate).
  replace (k + 1)%nat with (S k) by lia.
  apply future_value_comp. apply qdiv_eq.
Qed.

Lemma exact_table_is_future_value_witness :
  exists rows,
    build_projection_table 1000 (6 # 100) 100 2 = Ret rows /\
    forall (k : nat) (w : Row Q),
      nth_error rows k = Some w ->
      Ending_Balance w
      = Exact.qround2 (future_value 1000 ((6 # 100) / 12) 100 (12 * (k + 1))).
Proof. apply exact_table_is_future_value. discriminate. Defined.

(** X10. In exact arithmetic and with a rate of 0, every row shows a growth
    of 0, and year [k + 1] ends at the current value plus [12 * (k + 1)]
    monthly contributions, rounded to two decimals. *)
Theorem exact_zero_rate_table (current rate pmt years : Q) :
  rate == 0 ->
  exists rows,
    build_projection_table current rate pmt years = Ret rows /\
    forall (k : nat) (w : Row Q),
      nth_error rows k = Some w ->
      Growth w == 0 /\
      Ending_Balance w
      = Exact.qround2 (current + inject_Z (12 * Z.of_nat (k + 1)) * pmt).
Proof.
  intros Hrate. rewrite build_exact. eexists. split; [reflexivity|].
  intros k w E. apply year_loop_row in E. subst w.
  apply monthly_rate_zero in Hrate.
  destruct (simulate_year_zero_rate (div rate twelve) pmt
              (carried_balance (div rate twelve) pmt current k) Hrate) as [_ Eg].
  cbn [make_row Growth Ending_Balance round2 exact]. split.
  - rewrite (qround2_comp _ _ Eg). reflexivity.
  - apply qround2_comp.
    change (balance (simulate_year (div rate twelve) pmt
                       (carried_balance (div rate twelve) pmt current k)))
      with (carried_balance (div rate twelve) pmt current (S k)).
    rewrite (carried_zero_rate _ _ _ _ Hrate).
    replace (k + 1)%nat with (S k) by lia. reflexivity.
Qed.

Lemma exact_zero_rate_table_witness :
  exists rows,
    build_projection_table 1000 0 100 2 = Ret rows /\
    forall (k : nat) (w : Row Q),
      nth_error rows k = Some w ->
      Growth w == 0 /\
      Ending_Balance w
      = Exact.qround2 (1000 + inject_Z (12 * Z.of_nat (k + 1)) * 100).
Proof. apply exact_zero_rate_table. reflexivity. Defined.

(** X11. In exact arithmetic every year starts where the year before
    ended: the starting balance shown in a row is the ending balance shown in
    the row above it. *)
Theorem exact_rows_chain (current rate pmt years : Q) :
  exists rows,
    build_projection_table current rate pmt years = Ret rows /\
    forall (k : nat) (w1 w2 : Row Q),
      nth_error rows k = Some w1 ->
      nth_error rows (S k) = Some w2 ->
      Starting_Balance w2 = Ending_Balance w1.
Proof.
  rewrite build_exact. eexists. split; [reflexivity|].
  intros k w1 w2 E1 E2.
  apply year_loop_row in E1. apply year_loop_row in E2. subst w1 w2.
  cbn [make_row Starting_Balance Ending_Balance]. rewrite derived_start.
  reflexivity.
Qed.

(** X12. In exact arithmetic the contributions shown in every row are
    twelve times the monthly contribution, rounded to two decimals. *)
Theorem exact_contributions (current rate pmt years : Q) :
  exists rows,
    build_projection_table current rate pmt years = Ret rows /\
    Forall (fun w => Contributions w = Exact.qround2 (12 * pmt)) rows.
Proof.
  rewrite build_exact. eexists. split; [reflexivity|].
  eapply Forall_impl; [|apply year_loop_contributions].
  intros w ->. cbn [round2 exact]. apply qround2_comp, contributions_of_year_exact.
Qed.

(** X13. In exact arithmetic and for a current value, a rate and a monthly
    contribution that are all [>= 0], no row shows a negative amount and no
    year ends below the balance it started with. *)
Theorem exact_rows_nonnegative (current rate pmt years : Q) :
  0 <= current -> 0 <= rate -> 0 <= pmt ->
  exists rows,
    build_projection_table current rate pmt years = Ret rows /\
    Forall (fun w =>
              0 <= Starting_Balance w /\ Starting_Balance w <= Ending_Balance w /\
              0 <= Contributions w /\ 0 <= Growth w) rows.
Proof.
  intros Hc Hr Hp. rewrite build_exact. eexists. split; [reflexivity|].
  apply monthly_rate_nonneg in Hr.
  apply Forall_forall. intros w Hin.
  apply In_nth_error in Hin. destruct Hin as [k E].
  apply year_loop_row in E. subst w.
  destruct (carried_balance_grows _ _ Hr Hp current k Hc) as [H0 H1].
  destruct (simulate_year_nonneg _ _ Hr Hp _ H0) as [Hg Hcn].
  cbn [make_row Starting_Balance Ending_Balance Contributions Growth].
  rewrite derived_start. cbn [round2 exact].
  repeat split.
  - now apply qround2_nonneg.
  - apply qround2_mono. exact H1.
  - now apply qround2_nonneg.
  - now apply qround2_nonneg.
Qed.

Lemma exact_rows_nonnegative_witness :
  exists rows,
    build_projection_table 10000 (6 # 100) 500 2 = Ret rows /\
    Forall (fun w =>
              0 <= Starting_Balance w /\ Starting_Balance w <= Ending_Balance w /\
              0 <= Contributions w /\ 0 <= Growth w) rows.
Proof. apply exact_rows_nonnegative; unfold Qle; simpl; lia. Defined.

End ExactClosedForms.

(** ** Rounding to binary64 keeps what is large enough *)

Section Rounding64.
Local Open Scope Z_scope.

Lemma digits2_bounds (m : positive) :
  2 ^ (Zpos (digits2_pos m) - 1) <= Zpos m < 2 ^ Zpos (digits2_pos m).
Proof.
  induction m as [m IH|m IH|]; cbn [digits2_pos].
  - rewrite Pos2Z.inj_succ, (Pos2Z.inj_xI m).
    replace (Z.succ (Zpos (digits2_pos m)) - 1) with (Z.succ (Zpos (digits2_pos m) - 1)) by lia.
    rewrite !Z.pow_succ_r by lia. lia.
  - rewrite Pos2Z.inj_succ, (Pos2Z.inj_xO m).
    replace (Z.succ (Zpos (digits2_pos m)) - 1) with (Z.succ (Zpos (digits2_pos m) - 1)) by lia.
    rewrite !Z.pow_succ_r by lia. lia.
  - split; [apply Z.leb_le | apply Z.ltb_lt]; reflexivity.
Qed.

Lemma digits2_lower (m : positive) (k : Z) :
  2 ^ k <= Zpos m -> k < Zpos (digits2_pos m).
Proof.
  intros Hk. destruct (digits2_bounds m) as [_ Hhi].
  destruct (Z_lt_le_dec k (Zpos (digits2_pos m))) as [L|G]; [exact L|].
  exfalso. assert (2 ^ Zpos (digits2_pos m) <= 2 ^ k) by (apply Z.pow_le_mono_r; lia).
  lia.
Qed.

Lemma digits2_mono (m n : positive) :
  Zpos m <= Zpos n -> Zpos (digits2_pos m) <= Zpos (digits2_pos n).
Proof.
  intros Hmn. destruct (digits2_bounds m) as [Hlo _].
  pose proof (digits2_lower n (Zpos (digits2_pos m) - 1)). lia.
Qed.

Lemma shr_1_m (mrs : shr_record) :
  0 <= shr_m mrs -> shr_m (shr_1 mrs) = shr_m mrs / 2.
Proof.
  destruct mrs as [m r s]. cbn [shr_m]. intros Hm.
  rewrite <- Z.div2_div.
  destruct m as [|p|p]; [reflexivity| |lia]. destruct p; reflexivity.
Qed.

(** Shifting a mantissa right by [p] bits divides it by [2 ^ p]. *)
Lemma iter_shr_1_m (p : positive) (mrs : shr_record) :
  0 <= shr_m mrs ->
  shr_m (iter_pos shr_1 p mrs) = shr_m mrs / 2 ^ Zpos p.
Proof.
  revert mrs. induction p as [p IH|p IH|]; intros mrs Hm; cbn [iter_pos].
  - assert (H1 : 0 <= shr_m (shr_1 mrs))
      by (rewrite shr_1_m by exact Hm; apply Z.div_pos; lia).
    assert (H2 : 0 <= shr_m (iter_pos shr_1 p (shr_1 mrs)))
      by (rewrite IH by exact H1; apply Z.div_pos; [exact H1|apply Z.pow_pos_nonneg; lia]).
    rewrite IH by exact H2. rewrite IH by exact H1. rewrite shr_1_m by exact Hm.
    assert (0 < 2 ^ Zpos p) by (apply Z.pow_pos_nonneg; lia).
    rewrite !Z.div_div by lia.
    f_equal. rewrite (Pos2Z.inj_xI p).
    replace (2 * Zpos p + 1) with (1 + Zpos p + Zpos p) by lia.
    rewrite !Z.pow_add_r by lia. rewrite Z.pow_1_r. lia.
  - assert (H2 : 0 <= shr_m (iter_pos shr_1 p mrs))
      by (rewrite IH by exact Hm; apply Z.div_pos; [exact Hm|apply Z.pow_pos_nonneg; lia]).
    rewrite IH by exact H2. rewrite IH by exact Hm.
    assert (0 < 2 ^ Zpos p) by (apply Z.pow_pos_nonneg; lia).
    rewrite !Z.div_div by lia.
    f_equal. rewrite (Pos2Z.inj_xO p).
    replace (2 * Zpos p) with (Zpos p + Zpos p) by lia.
    rewrite !Z.pow_add_r by lia. lia.
  - rewrite shr_1_m by exact Hm. rewrite Z.pow_1_r. reflexivity.
Qed.

Lemma shr_m_of_loc (m : Z) (l : location) : shr_m (shr_record_of_loc m l) = m.
Proof. destruct l as [|[ | | ]]; reflexivity. Qed.

Lemma fexp64 (e : Z) : fexp prec emax e = Z.max (e - 53) (-1074).
Proof. reflexivity. Qed.

(** Shifting a mantissa to its canonical exponent leaves something of it as
    soon as the number is at least the smallest subnormal. *)
Lemma shr_fexp_pos (m : positive) (e : Z) (l : location) :
  -1074 < Zpos (digits2_pos m) + e ->
  0 < shr_m (fst (shr_fexp prec emax (Zpos m) e l)) /\
  -1074 <= snd (shr_fexp prec emax (Zpos m) e l).
Proof.
  intros Hbig. unfold shr_fexp, shr. cbn [Zdigits2]. rewrite fexp64.
  destruct (digits2_bounds m) as [Hlo Hhi].
  destruct (Z.max (Zpos (digits2_pos m) + e - 53) (-1074) - e) as [|q|q] eqn:En;
    cbn [fst snd].
  - rewrite shr_m_of_loc. lia.
  - rewrite iter_shr_1_m by (rewrite shr_m_of_loc; lia). rewrite shr_m_of_loc.
    split; [|lia].
    apply Z.div_str_pos. split; [apply Z.pow_pos_nonneg; lia|].
    apply (Z.le_trans _ (2 ^ (Zpos (digits2_pos m) - 1))); [|exact Hlo].
    apply Z.pow_le_mono_r; lia.
  - rewrite shr_m_of_loc. lia.
Qed.

Lemma round_nearest_even_ge (m : Z) (l : location) : m <= round_nearest_even m l.
Proof.
  destruct l as [|[ | | ]]; cbn [round_nearest_even]; try lia.
  destruct (Z.even m); lia.
Qed.

(** Rounding a positive number that is at least the smallest subnormal
    gives a positive number or [+inf], never zero. *)
Lemma binary_round_aux_pos (mz : positive) (ez : Z) (lz : location) :
  -1074 < Zpos (digits2_pos mz) + ez ->
  SFleb (binary_round_aux prec emax false (Zpos mz) ez lz) (S754_zero false) = false.
Proof.
  intros Hbig. unfold binary_round_aux.
  destruct (shr_fexp_pos mz ez lz Hbig) as [Hm He].
  destruct (shr_fexp prec emax (Zpos mz) ez lz) as [mrs' e']. cbn [fst snd] in Hm, He.
  pose proof (round_nearest_even_ge (shr_m mrs') (loc_of_shr_record mrs')) as Hr.
  destruct (round_nearest_even (shr_m mrs') (loc_of_shr_record mrs')) as [|m1|m1];
    try lia.
  assert (Hbig1 : -1074 < Zpos (digits2_pos m1) + e') by lia.
  destruct (shr_fexp_pos m1 e' loc_Exact Hbig1) as [Hm' _].
  destruct (shr_fexp prec emax (Zpos m1) e' loc_Exact) as [mrs'' e'']. cbn [fst] in Hm'.
  destruct (shr_m mrs'') as [|m2|m2]; try lia.
  destruct (e'' <=? emax - prec); reflexivity.
Qed.

(** The quotient of two positive binary64 numbers, the divisor not of a
    larger binade than the dividend, is computed with at least 53 bits. *)
Lemma SFdiv_core_pos (mx my : positive) (ex ey : Z) :
  0 <= Zpos (digits2_pos mx) + ex - (Zpos (digits2_pos my) + ey) ->
  exists (q : positive) (e' : Z) (l : location),
    SFdiv_core_binary prec emax (Zpos mx) ex (Zpos my) ey = (Zpos q, e', l) /\
    -1074 < Zpos (digits2_pos q) + e'.
Proof.
  intros HD. unfold SFdiv_core_binary. cbn [Zdigits2]. rewrite fexp64.
  destruct (digits2_bounds mx) as [Hx _]. destruct (digits2_bounds my) as [_ Hy].
  set (d1 := Zpos (digits2_pos mx)) in *. set (d2 := Zpos (digits2_pos my)) in *.
  assert (Hd1 : 0 < d1) by (unfold d1; lia).
  assert (Hd2 : 0 < d2) by (unfold d2; lia).
  set (e' := Z.min (Z.max (d1 + ex - (d2 + ey) - 53) (-1074)) (ex - ey)).
  assert (He' : e' <= d1 + ex - (d2 + ey) - 53) by (unfold e'; lia).
  set (s := ex - ey - e').
  assert (Hs : 0 <= s) by (unfold s, e'; lia).
  set (m' := match s with
             | 0 => Zpos mx
             | Zpos _ => Z.shiftl (Zpos mx) s
             | Zneg _ => 0
             end).
  assert (Hm' : m' = Zpos mx * 2 ^ s).
  { unfold m'. destruct s as [|p|p] eqn:Es; [lia| |lia].
    apply Z.shiftl_mul_pow2. lia. }
  set (k := d1 - 1 + s - d2).
  assert (Hk : 52 <= k) by (unfold k, s; lia).
  assert (Hq : 2 ^ k <= m' / Zpos my).
  { apply Z.div_le_lower_bound; [lia|].
    rewrite Hm'.
    assert (E : 2 ^ (d1 - 1 + s) = 2 ^ k * 2 ^ d2).
    { rewrite <- Z.pow_add_r by lia. f_equal. unfold k. lia. }
    assert (0 < 2 ^ k) by (apply Z.pow_pos_nonneg; lia).
    assert (0 < 2 ^ s) by (apply Z.pow_pos_nonneg; lia).
    assert (E2 : 2 ^ (d1 - 1 + s) = 2 ^ (d1 - 1) * 2 ^ s)
      by (apply Z.pow_add_r; lia).
    nia. }
  assert (Hdiv : m' / Zpos my = fst (Z.div_eucl m' (Zpos my))) by reflexivity.
  destruct (Z.div_eucl m' (Zpos my)) as [q r]. cbn [fst] in Hdiv. subst q.
  assert (0 < 2 ^ k) by (apply Z.pow_pos_nonneg; lia).
  destruct (m' / Zpos my) as [|q|q] eqn:Eq; try lia.
  exists q, e', (new_location (Zpos my) r). split; [reflexivity|].
  pose proof (digits2_lower q k Hq). unfold k, s in *. lia.
Qed.

Lemma canonical_digits (m : positive) (e : Z) :
  bounded prec emax m e = true ->
  Zpos (digits2_pos m) <= 53 /\ -1074 <= e /\
  (Zpos (digits2_pos m) = 53 \/ e = -1074).
Proof.
  unfold bounded, canonical_mantissa. rewrite fexp64.
  intros H. apply andb_true_iff in H. destruct H as [H _].
  apply Z.eqb_eq in H. lia.
Qed.

Lemma compare_gt_digits (mx my : positive) (ex ey : Z) :
  bounded prec emax mx ex = true ->
  bounded prec emax my ey = true ->
  SFcompare (S754_finite false mx ex) (S754_finite false my ey) = Some Gt ->
  0 <= Zpos (digits2_pos mx) + ex - (Zpos (digits2_pos my) + ey).
Proof.
  intros Hx Hy. apply canonical_digits in Hx, Hy. cbn [SFcompare].
  destruct (Z.compare_spec ex ey) as [E|L|G]; intros Hc.
  - injection Hc as Hc.
    change (PosDef.Pos.compare_cont Eq mx my) with (Pos.compare mx my) in Hc.
    apply Pos.compare_gt_iff in Hc.
    pose proof (digits2_mono my mx). lia.
  - discriminate.
  - lia.
Qed.

Lemma SFdiv_pos (mx my : positive) (ex ey : Z) :
  bounded prec emax mx ex = true ->
  bounded prec emax my ey = true ->
  SFcompare (S754_finite false mx ex) (S754_finite false my ey) = Some Gt ->
  SFleb (SF64div (S754_finite false mx ex) (S754_finite false my ey))
        (S754_zero false) = false.
Proof.
  intros Hx Hy Hc. pose proof (compare_gt_digits _ _ _ _ Hx Hy Hc) as HD.
  destruct (SFdiv_core_pos mx my ex ey HD) as (q & e' & l & E & Hbig).
  unfold SF64div, SFdiv. rewrite E. cbn [xorb]. now apply binary_round_aux_pos.
Qed.

(** Whatever is rounded with a plus sign keeps it. *)
Lemma binary_round_aux_plus (mz ez : Z) (lz : location) :
  plus_signed (binary_round_aux prec emax false mz ez lz) = true.
Proof.
  unfold binary_round_aux.
  destruct (shr_fexp prec emax mz ez lz) as [mrs' e'].
  destruct (shr_fexp prec emax _ e' loc_Exact) as [mrs'' e''].
  destruct (shr_m mrs'') as [|m|m]; try reflexivity.
  destruct (e'' <=? emax - prec); reflexivity.
Qed.

Lemma shl_align_exponent (m : positive) (e e' : Z) :
  -1074 <= e -> -1074 <= e' -> -1074 <= snd (shl_align m e e').
Proof.
  intros He He'. unfold shl_align. destruct (e' - e); cbn [snd]; assumption.
Qed.

End Rounding64.

(** ** Signs of quotients and sums in binary64 *)

Section Signs.
Local Open Scope float_scope.

(** A number divided by a smaller positive number is not [<= 0]: it is
    positive, [+inf] or NaN. *)
Lemma div_not_le_0 (t c : float) :
  (t <=? c) = false -> (c <=? 0) = false -> (t / c <=? 0) = false.
Proof.
  rewrite !leb_spec, div_spec.
  change (Prim2SF 0) with (S754_zero false).
  pose proof (Prim2SF_valid t) as Vt. pose proof (Prim2SF_valid c) as Vc.
  destruct (Prim2SF t) as [st|st| |st mt et], (Prim2SF c) as [sc|sc| |sc mc ec];
    try (destruct st, sc; cbn; congruence);
    try (destruct st; cbn; congruence);
    try (destruct sc; cbn; congruence);
    try (cbn; congruence).
  intros Htc Hc.
  destruct sc; [cbn in Hc; discriminate|].
  destruct st; [cbn in Htc; discriminate|].
  apply SFdiv_pos; [exact Vt | exact Vc|].
  unfold SFleb in Htc.
  destruct (SFcompare (S754_finite false mt et) (S754_finite false mc ec))
    as [[ | | ]|] eqn:E; try discriminate; reflexivity.
Qed.

(** A rate that is not [<= 0], divided by 12. *)
Lemma monthly_rate_plus (rate : float) :
  (rate <=? 0) = false -> plus_signed (Prim2SF (rate / 12)) = true.
Proof.
  rewrite leb_spec, div_spec.
  change (Prim2SF 0) with (S754_zero false).
  change (Prim2SF 12) with (S754_finite false 6755399441055744 (-49)).
  destruct (Prim2SF rate) as [s|s| |s m e]; try (destruct s; cbn; congruence);
    try reflexivity.
  destruct s; [cbn; congruence|]. intros _.
  unfold SF64div, SFdiv. cbn [xorb].
  destruct (SFdiv_core_binary prec emax (Z.pos m) e (Z.pos 6755399441055744) (-49))
    as [[mz ez] lz].
  apply binary_round_aux_plus.
Qed.

(** 1 plus a number with a plus sign is not [<= 0]. *)
Lemma one_plus_not_le_0 (r : float) :
  plus_signed (Prim2SF r) = true -> (1 + r <=? 0) = false.
Proof.
  rewrite leb_spec, add_spec.
  change (Prim2SF 0) with (S754_zero false).
  change (Prim2SF 1) with (S754_finite false 4503599627370496 (-52)).
  pose proof (Prim2SF_valid r) as V.
  destruct (Prim2SF r) as [s|s| |s m e]; try (destruct s; cbn; congruence);
    try reflexivity.
  destruct s; [cbn; congruence|]. intros _.
  apply canonical_digits in V. destruct V as (_ & He & _).
  unfold SF64add, SFadd. cbn [cond_Zopp].
  rewrite <- Pos2Z.inj_add. cbn [binary_normalize]. unfold binary_round.
  set (ez := Z.min (-52) e).
  set (mz := (fst (shl_align 4503599627370496 (-52) ez)
              + fst (shl_align m e ez))%positive).
  pose proof (shl_align_exponent mz ez
    (fexp prec emax (Z.pos (digits2_pos mz) + ez))) as Hs.
  destruct (shl_align mz ez (fexp prec emax (Z.pos (digits2_pos mz) + ez)))
    as [mz' ez'].
  cbn [snd] in Hs.
  apply binary_round_aux_pos.
  assert (-1074 <= ez')%Z by (apply Hs; [unfold ez; lia | rewrite fexp64; lia]).
  lia.
Qed.

(** With a rate that is not [<= 0], [math.log(1 + r)] does not raise. *)
Lemma math_log_one_plus_rate (rate : float) :
  (rate <=? 0) = false ->
  math_log (1 + rate / 12) = Ret (B64.libm_log (1 + rate / 12)).
Proof.
  intros Hr. unfold math_log.
  now rewrite (one_plus_not_le_0 _ (monthly_rate_plus _ Hr)).
Qed.

Lemma eqb_0_leb_0 (p : float) : (p =? 0) = true -> (p <=? 0) = true.
Proof.
  rewrite leb_spec, FloatAxioms.eqb_spec. unfold SFleb, SFeqb.
  destruct (SFcompare (Prim2SF p) (Prim2SF 0)) as [[ | | ]|]; congruence.
Qed.

End Signs.

(** ** When the solver returns *)

Section SolverOutcomes.
Local Open Scope float_scope.

(** Every path through the solver: it returns, or it divides by a monthly
    rate that is zero or by a logarithm that is zero. *)
Lemma solver_cases (current target rate pmt : float) :
  match calculate_years_to_target current target rate pmt with
  | Ret _ => True
  | Raise e =>
      e = ZeroDivisionError /\
      (rate <=? 0) = false /\
      ((rate / 12 =? 0) = true \/ (B64.libm_log (1 + rate / 12) =? 0) = true)
  end.
Proof.
  unfold calculate_years_to_target. cbv zeta.
  destruct (target <=? current) eqn:Htc; [exact I|].
  destruct (rate <=? 0) eqn:Hr.
  - destruct (pmt <=? 0) eqn:Hp; [exact I|].
    unfold truediv. rewrite (leb_false_neq0 _ Hp). cbn [bind]. exact I.
  - rewrite (math_log_one_plus_rate _ Hr).
    destruct (pmt =? 0) eqn:Hp0.
    + destruct (current <=? 0) eqn:Hc; [exact I|].
      unfold truediv at 1. rewrite (leb_false_neq0 _ Hc). cbn [bind].
      unfold math_log. rewrite (div_not_le_0 _ _ Htc Hc). cbn [bind].
      unfold truediv.
      destruct (B64.libm_log (1 + rate / 12) =? 0) eqn:Hl; cbn [bind];
        [auto | exact I].
    + unfold truediv at 1 2.
      destruct (rate / 12 =? 0) eqn:Hr0; cbn [bind]; [auto|].
      destruct (current + pmt / (rate / 12) <=? 0) eqn:Hd; [exact I|].
      unfold truediv at 1. rewrite (leb_false_neq0 _ Hd). cbn [bind].
      destruct ((target + pmt / (rate / 12)) / (current + pmt / (rate / 12)) <=? 0)
        eqn:Hx; [exact I|].
      unfold math_log. rewrite Hx. cbn [bind]. unfold truediv.
      destruct (B64.libm_log (1 + rate / 12) =? 0) eqn:Hl; cbn [bind];
        [auto | exact I].
Qed.

Lemma solver_returns (current target rate pmt : float) :
  (rate / 12 =? 0) = false ->
  (B64.libm_log (1 + rate / 12) =? 0) = false ->
  exists y, calculate_years_to_target current target rate pmt = Ret y.
Proof.
  intros H1 H2. pose proof (solver_cases current target rate pmt) as H.
  destruct (calculate_years_to_target current target rate pmt) as [y|e];
    [now exists y|].
  destruct H as (_ & _ & [H|H]); congruence.
Qed.

(** X1. Every exception of the solver is a [ZeroDivisionError], and it is
    only raised with a rate that is not [<= 0] and so small that its twelfth
    is zero or that the logarithm of [1 + r] is zero.  [math.log] never
    raises in the solver, and with any other rate the solver returns,
    whatever the three amounts are (NaN and infinities included). *)
Theorem solver_raises_only_when_rate_vanishes
    (current target rate pmt : float) (e : exn) :
  calculate_years_to_target current target rate pmt = Raise e ->
  e = ZeroDivisionError /\
  (rate <=? 0) = false /\
  ((rate / 12 =? 0) = true \/ (B64.libm_log (1 + rate / 12) =? 0) = true).
Proof.
  intros E. pose proof (solver_cases current target rate pmt) as H.
  rewrite E in H. exact H.
Qed.

Lemma solver_raises_only_when_rate_vanishes_witness :
  ZeroDivisionError = ZeroDivisionError /\
  (1e-16 <=? 0) = false /\
  ((1e-16 / 12 =? 0) = true \/ (B64.libm_log (1 + 1e-16 / 12) =? 0) = true).
Proof.
  apply (solver_raises_only_when_rate_vanishes 1000 2000 1e-16 0).
  vm_compute. reflexivity.
Defined.

(** The rates of the application are not among the vanishing ones. *)
Lemma portfolio_rate_sound (name : String.string) (rate : float) :
  In (name, rate) App.PORTFOLIO_RATES ->
  (rate / 12 =? 0) = false /\ (B64.libm_log (1 + rate / 12) =? 0) = false.
Proof.
  intros Hin. unfold App.PORTFOLIO_RATES in Hin. cbn [In] in Hin.
  destruct Hin as [E|[E|[E|[E|[E|[]]]]]]; injection E as _ <-;
    split; vm_compute; reflexivity.
Qed.

(** X3. With nothing invested ([current <= 0]), nothing contributed
    ([contribution == 0]) and a target above the current value, the solver
    returns the unreachable sentinel at every rate: positive, zero, negative
    or NaN. *)
Theorem nothing_from_nothing (current target rate pmt : float) :
  (current <? target) = true ->
  (current <=? 0) = true ->
  (pmt =? 0) = true ->
  calculate_years_to_target current target rate pmt = Ret infinity.
Proof.
  intros Hlt Hc Hp. apply ltb_leb_false in Hlt.
  unfold calculate_years_to_target. cbv zeta.
  rewrite Hlt, Hp, Hc, (eqb_0_leb_0 _ Hp).
  destruct (rate <=? 0); reflexivity.
Qed.

Lemma nothing_from_nothing_witness :
  calculate_years_to_target 0 1000 0.08 0 = Ret infinity.
Proof. apply nothing_from_nothing; reflexivity. Defined.

End SolverOutcomes.

(** ** What the solver returns for a rate that does not vanish *)

Section SolverFormulas.
Local Open Scope float_scope.

(** X20. Pure compounding as it holds.  With a target above the current
    value, a rate that is not [<= 0], a contribution equal to 0 and a current
    value that is not [<= 0], the solver returns
    [ln(target / current) / ln(1 + rate/12) / 12] rounded to two decimals,
    provided the logarithm of [1 + rate/12] is not zero; neither logarithm
    raises. *)
Theorem pure_compounding_formula (current target rate pmt : float) :
  (target <=? current) = false ->
  (rate <=? 0) = false ->
  (pmt =? 0) = true ->
  (current <=? 0) = false ->
  (B64.libm_log (1 + rate / 12) =? 0) = false ->
  calculate_years_to_target current target rate pmt
  = Ret (B64.round2
           (B64.libm_log (target / current) / B64.libm_log (1 + rate / 12) / 12)).
Proof.
  intros Htc Hr Hp Hc Hl.
  unfold calculate_years_to_target. cbv zeta.
  rewrite Htc, Hr, Hp, Hc, (math_log_one_plus_rate _ Hr).
  unfold truediv at 1. rewrite (leb_false_neq0 _ Hc). cbn [bind].
  unfold math_log. rewrite (div_not_le_0 _ _ Htc Hc). cbn [bind].
  unfold truediv. rewrite Hl. reflexivity.
Qed.

Lemma pure_compounding_formula_witness :
  calculate_years_to_target 1000 2000 0.08 0
  = Ret (B64.round2 (B64.libm_log (2000 / 1000) / B64.libm_log (1 + 0.08 / 12) / 12)).
Proof. apply pure_compounding_formula; vm_compute; reflexivity. Defined.

(** X21. Compounding with contributions as it holds.  With a target above
    the current value, a rate that is not [<= 0] and a contribution other
    than 0, and provided neither [rate/12] nor the logarithm of [1 + rate/12]
    is zero: the solver returns the sentinel when the denominator
    [current + pmt/r] or the ratio [x = (target + pmt/r) / (current + pmt/r)]
    is [<= 0], and [ln(x) / ln(1 + r) / 12] rounded to two decimals
    otherwise. *)
Theorem annuity_formula (current target rate pmt : float) :
  (target <=? current) = false ->
  (rate <=? 0) = false ->
  (pmt =? 0) = false ->
  (rate / 12 =? 0) = false ->
  (B64.libm_log (1 + rate / 12) =? 0) = false ->
  calculate_years_to_target current target rate pmt
  = Ret (if (current + pmt / (rate / 12) <=? 0)
            || ((target + pmt / (rate / 12)) / (current + pmt / (rate / 12)) <=? 0)
         then infinity
         else B64.round2
                (B64.libm_log
                   ((target + pmt / (rate / 12)) / (current + pmt / (rate / 12)))
                 / B64.libm_log (1 + rate / 12) / 12)).
Proof.
  intros Htc Hr Hp Hr0 Hl.
  unfold calculate_years_to_target. cbv zeta.
  rewrite Htc, Hr, Hp, (math_log_one_plus_rate _ Hr).
  unfold truediv at 1 2. rewrite Hr0. cbn [bind].
  destruct (current + pmt / (rate / 12) <=? 0) eqn:Hd; [reflexivity|].
  unfold truediv at 1. rewrite (leb_false_neq0 _ Hd). cbn [bind orb].
  destruct ((target + pmt / (rate / 12)) / (current + pmt / (rate / 12)) <=? 0)
    eqn:Hx; [reflexivity|].
  unfold math_log. rewrite Hx. cbn [bind]. unfold truediv. rewrite Hl. reflexivity.
Qed.

Lemma annuity_formula_witness :
  calculate_years_to_target 10000 1000000 0.06 500 = Ret 38.47.
Proof.
  rewrite (annuity_formula 10000 1000000 0.06 500);
    vm_compute; reflexivity.
Defined.

End SolverFormulas.

(** ** The application *)

Section Selection.
Import String.
Local Open Scope string_scope.
Import App.

Lemma list_index_ret (l : list string) (x : string) (i : nat) :
  list_index l x = Ret i -> nth_error l i = Some x /\ (i < List.length l)%nat.
Proof.
  revert i. induction l as [|y l IH]; intros i; cbn [list_index]; [discriminate|].
  destruct (eqb_spec y x) as [->|Hne].
  - intros E. injection E as <-. cbn. split; [reflexivity|lia].
  - destruct (list_index l x) as [j|e]; cbn [bind]; [|discriminate].
    intros E. injection E as <-. destruct (IH j eq_refl) as [Hn Hl].
    cbn. split; [exact Hn|lia].
Qed.

Lemma list_index_raise (l : list string) (x : string) (e : exn) :
  list_index l x = Raise e -> e = ValueError /\ ~ In x l.
Proof.
  induction l as [|y l IH]; cbn [list_index].
  - intros E. injection E as <-. split; [reflexivity|intros []].
  - destruct (eqb_spec y x) as [->|Hne]; [discriminate|].
    destruct (list_index l x) as [j|e']; cbn [bind]; [discriminate|].
    intros E. injection E as <-. destruct (IH eq_refl) as [He Hn].
    split; [exact He|]. intros [H|H]; [exact (Hne H) | exact (Hn H)].
Qed.

(** X14. The preselected portfolio type.  [default_index] never raises and
    is a valid position in the list of portfolio types; it is the position of
    the imported type when that is one of the five names, and 0 (the first
    type) when nothing was imported or the imported name is unknown. *)
Theorem default_index_selects (d : Defaults) :
  exists i : nat,
    default_index d = Ret i /\
    (i < List.length portfolio_types)%nat /\
    (forall x, portfolio_type d = Some x -> In x portfolio_types ->
               nth_error portfolio_types i = Some x) /\
    (forall x, portfolio_type d = Some x -> ~ In x portfolio_types -> i = O) /\
    (portfolio_type d = None -> i = O).
Proof.
  unfold default_index. destruct (portfolio_type d) as [x|].
  - destruct (list_index portfolio_types x) as [i|e] eqn:E.
    + destruct (list_index_ret _ _ _ E) as [Hn Hl].
      exists i. repeat split; try assumption.
      * intros y Hy _. injection Hy as <-. exact Hn.
      * intros y Hy Hnin. injection Hy as <-. exfalso. apply Hnin.
        eapply nth_error_In. exact Hn.
      * discriminate.
    + destruct (list_index_raise _ _ _ E) as [-> Hnin].
      exists O. repeat split; try reflexivity.
      * cbn. lia.
      * intros y Hy Hin. injection Hy as <-. contradiction.
  - exists O. repeat split; try reflexivity; try discriminate. cbn. lia.
Qed.

(** A key of a dict has an item. *)
Lemma getitem_key {V : Type} (d : list (string * V)) (x : string) :
  In x (map fst d) -> exists v, getitem d x = Some v /\ In (x, v) d.
Proof.
  induction d as [|[k v] d IH]; cbn [map fst In getitem]; [intros []|].
  destruct (eqb_spec k x) as [->|Hne].
  - intros _. exists v. split; [reflexivity|now left].
  - intros [H|H]; [contradiction|].
    destruct (IH H) as (v' & E & Hin). exists v'. split; [exact E|now right].
Qed.

(** X2. Every portfolio type that can be selected has a rate
    ([PORTFOLIO_RATES[selected_portfolio]] finds it), and with that rate the
    solver returns a value, whatever the current value, the target and the
    monthly contribution are: no input of the application makes it raise. *)
Theorem solver_returns_for_portfolio_types
    (selected : string) (current_value target_value monthly_contribution : float) :
  In selected portfolio_types ->
  exists annual_rate years : float,
    getitem PORTFOLIO_RATES selected = Some annual_rate /\
    calculate_years_to_target current_value target_value annual_rate
      monthly_contribution = Ret years.
Proof.
  intros Hin. destruct (getitem_key PORTFOLIO_RATES selected Hin) as (rate & E & Hr).
  destruct (portfolio_rate_sound selected rate Hr) as [H1 H2].
  destruct (solver_returns current_value target_value rate monthly_contribution H1 H2)
    as [y Hy].
  exists rate, y. split; assumption.
Qed.

Lemma solver_returns_for_portfolio_types_witness :
  exists annual_rate years : float,
    getitem PORTFOLIO_RATES "Real Estate" = Some annual_rate /\
    calculate_years_to_target 10000 1000000 annual_rate 500 = Ret years.
Proof.
  apply solver_returns_for_portfolio_types. cbn. tauto.
Defined.

End Selection.

Section ImportExport.
Import String.
Local Open Scope string_scope.
Import App.
Variable float_of_str : string -> option float.
Variable str_of_float : float -> string.

(** X15. What the import takes from the first row of the uploaded sheet.
    The four columns are read in the order current value, target value,
    monthly contribution, portfolio type.  A value is imported when its
    column is there, its cell converts, and no cell of an earlier column has
    failed to convert; the first cell that does not convert ends the import,
    what was read before it is kept, and the error message is shown exactly
    in that case. *)
Theorem import_first_row (row : Series) (rest : DataFrame) :
  let c := getitem row "Current Value" in
  let t := getitem row "Target Value" in
  let m := getitem row "Monthly Contribution" in
  let p := getitem row "Portfolio Type" in
  let converts := converts float_of_str in
  let converted := converted float_of_str in
  import_defaults float_of_str str_of_float (row :: rest)
  = ({| current := converted c;
        target := if converts c then converted t else None;
        monthly := if converts c && converts t then converted m else None;
        portfolio_type :=
          if converts c && converts t && converts m
          then option_map (to_str str_of_float) p else None |},
     negb (converts c && converts t && converts m)).
Proof.
  cbv zeta. unfold import_defaults, converts, converted.
  destruct row as [|col row]; [reflexivity|].
  cbn [empty negb try_block]. unfold import_float, import_str.
  destruct (getitem (col :: row) "Current Value") as [c|];
    [destruct (to_float float_of_str c)|];
    (destruct (getitem (col :: row) "Target Value") as [t|];
      [destruct (to_float float_of_str t)|]);
    (destruct (getitem (col :: row) "Monthly Contribution") as [m|];
      [destruct (to_float float_of_str m)|]);
    destruct (getitem (col :: row) "Portfolio Type") as [p|];
    reflexivity.
Qed.

(** X16. What the export writes, the import reads back.  Read from the
    summary row of an export, the defaults are the portfolio type, the
    current value, the target and the monthly contribution of that export,
    no error is shown, and the form starts with exactly these four inputs. *)
Theorem export_import_round_trip
    (selected : string)
    (current_value target_value monthly_contribution annual_rate years : float)
    (rest : DataFrame) :
  In selected portfolio_types ->
  exists d,
    import_defaults float_of_str str_of_float
      (summary_row selected current_value target_value monthly_contribution
         annual_rate years :: rest) = (d, false) /\
    initial_inputs d
    = Ret (mkInputs current_value target_value monthly_contribution (Some selected)).
Proof.
  intros Hin. eexists. split; [reflexivity|].
  unfold initial_inputs, default_index.
  cbn [portfolio_type current target monthly get to_str].
  destruct (list_index portfolio_types selected) as [i|e] eqn:E.
  - apply list_index_ret in E. destruct E as [E _].
    cbv beta iota delta [bind]. now rewrite E.
  - apply list_index_raise in E. destruct E as [_ E]. contradiction.
Qed.

End ImportExport.

Section ImportExportWitnesses.
Import String.
Local Open Scope string_scope.
Import App.

(** A target that is not a number: the current value is imported, the
    monthly contribution and the portfolio type behind it are not. *)
Example import_with_bad_target :
  import_defaults (fun _ => None) (fun _ => "")
    [[("Current Value", Number 5000); ("Target Value", Text "n/a");
      ("Monthly Contribution", Number 100); ("Portfolio Type", Text "Real Estate")]]
  = (mkDefaults (Some 5000%float) None None None, true).
Proof. reflexivity. Qed.

Lemma export_import_round_trip_witness :
  exists d,
    import_defaults (fun _ => None) (fun _ => "")
      [summary_row "Real Estate" 10000 1000000 500 0.09 27.55] = (d, false) /\
    initial_inputs d = Ret (mkInputs 10000 1000000 500 (Some "Real Estate")).
Proof.
  apply (export_import_round_trip (fun _ => None) (fun _ => "")).
  cbn. tauto.
Defined.

End ImportExportWitnesses.

Section Handler.
Import App.
Local Open Scope float_scope.

Lemma ceil_ret (x : float) (n : Z) :
  B64.ceil x = Ret n -> B64.finite x = true /\ n = Qceiling (B64.value x).
Proof.
  unfold B64.ceil, B64.finite, B64.value.
  destruct (Prim2SF x); try discriminate; intros E; injection E as <-; auto.
Qed.

Lemma build_ret (current rate pmt years : float) (rows : list (Row float)) :
  (years =? infinity) = false ->
  build_projection_table current rate pmt years = Ret rows ->
  B64.finite years = true /\
  Z.of_nat (length rows) = Z.max 0 (Qceiling (B64.value years)).
Proof.
  intros Hinf. unfold build_projection_table. cbn [is_inf ceil binary64].
  rewrite Hinf. cbn [negb].
  destruct (B64.ceil years) as [n|e] eqn:E; cbn [bind]; [|discriminate].
  apply ceil_ret in E. destruct E as [Hfin ->].
  intros E. injection E as <-. split; [exact Hfin|].
  rewrite year_loop_length. lia.
Qed.

(** X17. A projection is only shown for a finite number of years: it is the
    solver's result, neither the sentinel nor NaN, and the table has as many
    rows as the ceiling of that number, none if it is [<= 0].  The 30 rows
    that the builder has for the sentinel are never asked for. *)
Theorem projection_is_finite
    (current target pmt rate years : float) (rows : list (Row float)) :
  on_calculate current target pmt rate = Ret (Projection years rows) ->
  calculate_years_to_target current target rate pmt = Ret years /\
  B64.finite years = true /\
  Z.of_nat (length rows) = Z.max 0 (Qceiling (B64.value years)).
Proof.
  unfold on_calculate.
  destruct (target <=? current); [discriminate|].
  destruct (calculate_years_to_target current target rate pmt) as [y|e];
    cbn [bind]; [|discriminate].
  destruct (y =? infinity) eqn:Hinf; [discriminate|].
  destruct (build_projection_table current rate pmt y) as [df|e] eqn:Hb;
    cbn [bind]; [|discriminate].
  intros E. injection E as <- <-.
  split; [reflexivity|]. exact (build_ret _ _ _ _ _ Hinf Hb).
Qed.

Lemma projection_is_finite_witness :
  exists rows,
    on_calculate 1000 2000 0 0.08 = Ret (Projection 8.69 rows) /\
    calculate_years_to_target 1000 2000 0.08 0 = Ret 8.69 /\
    B64.finite 8.69 = true /\
    Z.of_nat (length rows) = Z.max 0 (Qceiling (B64.value 8.69)).
Proof.
  eexists. split; [vm_compute; reflexivity|].
  refine (projection_is_finite 1000 2000 0 0.08 8.69 _ _).
  vm_compute; reflexivity.
Defined.

(** X18. With the rate of a portfolio type, pressing "Calculate" fails only
    in [math.ceil] of the builder: with [ValueError] when the solver has
    returned NaN, with [OverflowError] when it has returned [-inf].  Nothing
    else is raised, whatever the three amounts are. *)
Theorem handler_fails_only_in_ceil
    (name : String.string) (rate current target pmt : float) (e : exn) :
  In (name, rate) PORTFOLIO_RATES ->
  on_calculate current target pmt rate = Raise e ->
  (calculate_years_to_target current target rate pmt = Ret nan /\ e = ValueError) \/
  (calculate_years_to_target current target rate pmt = Ret neg_infinity /\
   e = OverflowError).
Proof.
  intros Hin.
  destruct (portfolio_rate_sound name rate Hin) as [H1 H2].
  destruct (solver_returns current target rate pmt H1 H2) as [y Hy].
  unfold on_calculate. rewrite Hy. cbn [bind].
  destruct (target <=? current); [discriminate|].
  destruct (y =? infinity) eqn:Hinf; [discriminate|].
  destruct (B64.finite y) eqn:Hfin.
  - unfold build_projection_table. cbn [is_inf ceil binary64].
    rewrite Hinf, (finite_ceil _ Hfin). cbn [negb bind]. discriminate.
  - destruct (infinite_cases y Hfin) as [-> | [-> | ->] ].
    + intros E. left. split; [reflexivity|]. cbn in E. congruence.
    + discriminate.
    + intros E. right. split; [reflexivity|]. cbn in E. congruence.
Qed.

Lemma handler_fails_only_in_ceil_witness :
  (calculate_years_to_target 0 1000 0.06 1e308 = Ret nan /\ ValueError = ValueError) \/
  (calculate_years_to_target 0 1000 0.06 1e308 = Ret neg_infinity /\
   ValueError = OverflowError).
Proof.
  apply (handler_fails_only_in_ceil
           (fst (hd (String.EmptyString, 0) PORTFOLIO_RATES)) 0.06 0 1000 1e308).
  - left. reflexivity.
  - vm_compute. reflexivity.
Defined.

(** X19. When the solver returns a finite number of years that is [<= 0]
    although the target is above the current value (a target so close that
    the years round to 0.00), the projection that is shown has no rows. *)
Theorem empty_projection (current target pmt rate years : float) :
  (target <=? current) = false ->
  calculate_years_to_target current target rate pmt = Ret years ->
  B64.finite years = true ->
  (years <=? 0) = true ->
  on_calculate current target pmt rate = Ret (Projection years []).
Proof.
  intros Htc Hy Hfin Hneg. unfold on_calculate. rewrite Htc, Hy. cbn [bind].
  rewrite (finite_not_inf _ Hfin).
  unfold build_projection_table. cbn [is_inf ceil binary64].
  rewrite (finite_not_inf _ Hfin), (finite_ceil _ Hfin). cbn [negb bind].
  now rewrite (ceil_nonpositive _ Hneg).
Qed.

Lemma empty_projection_witness :
  on_calculate 999 1000 500 0.06 = Ret (Projection 0 []).
Proof. apply empty_projection; vm_compute; reflexivity. Defined.

End Handler.
